(** * subdomain_tool: a shallow embedding of the enumeration pipeline

    The development follows the layout of the Python sources:

    - [PyStr]      the [str] methods the sources call ([strip], [lower],
                   [endswith], [splitlines], ...);
    - [PyDict]     an insertion-ordered dictionary ([dict]);
    - [Utils]      core/utils.py      ([normalize], [dedupe], ...);
    - [Resolver]   core/resolver.py   ([resolve_name_any], [bulk_resolve]);
    - [Bruteforce] core/bruteforce.py ([bruteforce_stream]);
    - [Collector]  core/collector.py  ([crt_sh_collect]);
    - [Cli]        cli.py             (the wildcard filter of [main]).

    Everything the program takes from the outside world (DNS answers, HTTP
    responses, completion order of futures, the lines of the wordlist) is a
    parameter of the model, and the statements quantify over all of them. *)

From Stdlib Require Import ZArith List Ascii String QArith Lia Permutation.
From stdpp Require Import base list gmap strings.
Import ListNotations.

Local Open Scope string_scope.
Local Open Scope Z_scope.
Local Open Scope list_scope.

(** A Python [str] is a sequence of code points.  The model keeps the code
    points U+0000..U+00FF, one [ascii] each, and writes literals as Rocq
    strings. *)
Abbreviation str := (list ascii).
Coercion list_ascii_of_string : string >-> list.

(* ===================================================================== *)
(** * Python string methods *)
(* ===================================================================== *)
Module PyStr.

Definition code (c : ascii) : N := N_of_ascii c.

(** [str.isspace] on one code point below U+0100: TAB..CR, FS..US, SPACE,
    NEL and NBSP. *)
Definition isspace (c : ascii) : bool :=
  let n := code c in
  ((9 <=? n) && (n <=? 13) || (28 <=? n) && (n <=? 32)
   || (n =? 133) || (n =? 160))%N.

(** [str.lower] on one code point below U+0100: A..Z and the Latin-1
    capitals (all of U+00C0..U+00DE but the multiplication sign). *)
Definition lower_char (c : ascii) : ascii :=
  let n := code c in
  if ((65 <=? n) && (n <=? 90)
      || (192 <=? n) && (n <=? 222) && negb (n =? 215))%N
  then ascii_of_N (n + 32) else c.

Definition lower (s : str) : str := map lower_char s.

(** [s.lstrip(chars)]: drop the longest prefix made of characters for
    which [p] holds. *)
Fixpoint lstrip_with (p : ascii -> bool) (s : str) : str :=
  match s with
  | [] => []
  | c :: r => if p c then lstrip_with p r else s
  end.

(** [s.rstrip(chars)]. *)
Definition rstrip_with (p : ascii -> bool) (s : str) : str :=
  rev (lstrip_with p (rev s)).

Definition one_of (chars : str) (c : ascii) : bool :=
  existsb (Ascii.eqb c) chars.

Definition lstrip (chars : str) (s : str) : str := lstrip_with (one_of chars) s.
Definition rstrip (chars : str) (s : str) : str := rstrip_with (one_of chars) s.

(** [s.strip()] with no argument strips white space at both ends. *)
Definition strip (s : str) : str := rstrip_with isspace (lstrip_with isspace s).

Fixpoint startswith (s prefix : str) : bool :=
  match prefix, s with
  | [], _ => true
  | _ :: _, [] => false
  | p :: ps, c :: cs => Ascii.eqb c p && startswith cs ps
  end.

Definition endswith (s suffix : str) : bool := startswith (rev s) (rev suffix).

(** [s[:-1]]. *)
Definition drop_last (s : str) : str := removelast s.

(** [c in s] for a one-character string [c]. *)
Definition contains_char (c : ascii) (s : str) : bool := existsb (Ascii.eqb c) s.

(** Python truthiness of a [str]. *)
Definition truthy (s : str) : bool := match s with [] => false | _ => true end.

(** Whether the first (the last) character of [s] satisfies [p]; [false]
    on the empty string. *)
Definition first_is (p : ascii -> bool) (s : str) : bool :=
  match s with c :: _ => p c | [] => false end.

Definition last_is (p : ascii -> bool) (s : str) : bool := first_is p (rev s).

(** The line boundaries of [str.splitlines] below U+0100, CR apart (CR LF
    counts as one boundary): LF, VT, FF, FS, GS, RS and NEL. *)
Definition is_linebreak (c : ascii) : bool :=
  let n := code c in
  ((n =? 10) || (n =? 11) || (n =? 12) || (n =? 28) || (n =? 29) || (n =? 30)
   || (n =? 133))%N.

(** [acc] holds the current line, last character first. *)
Fixpoint splitlines_from (acc : str) (s : str) : list str :=
  match s with
  | [] => match acc with [] => [] | _ => [rev acc] end
  | c :: r =>
      if (code c =? 13)%N then
        match r with
        | c' :: r' =>
            if (code c' =? 10)%N then rev acc :: splitlines_from [] r'
            else rev acc :: splitlines_from [] r
        | [] => rev acc :: splitlines_from [] r
        end
      else if is_linebreak c then rev acc :: splitlines_from [] r
      else splitlines_from (c :: acc) r
  end.

Definition splitlines (s : str) : list str := splitlines_from [] s.

End PyStr.

(* ===================================================================== *)
(** * Python dictionaries, in insertion order *)
(* ===================================================================== *)
Module PyDict.
Section Dict.
Context {V : Type}.

Definition dict := list (str * V).

Fixpoint get (d : dict) (k : str) : option V :=
  match d with
  | [] => None
  | (k', v) :: r => if decide (k' = k) then Some v else get r k
  end.

(** [d[k] = v]: a present key keeps its place, a new key goes last. *)
Fixpoint set (d : dict) (k : str) (v : V) : dict :=
  match d with
  | [] => [(k, v)]
  | (k', v') :: r =>
      if decide (k' = k) then (k', v) :: r else (k', v') :: set r k v
  end.

Definition keys (d : dict) : list str := map fst d.
End Dict.
Arguments dict V : clear implicits.
End PyDict.

(* ===================================================================== *)
(** * core/utils.py *)
(* ===================================================================== *)
Module Utils.
Import PyStr.

(** [normalize(name)]. *)
Definition normalize (name : str) : str :=
  if negb (truthy name) then name
  else
    let name := lower (strip name) in
    if endswith name "." then drop_last name else name.

(** The characters whose presence at the end of a name makes [normalize]
    change it: the dot and white space. *)
Definition dot_or_space (c : ascii) : bool := isspace c || Ascii.eqb c ".".

(** The generator [dedupe(iterable)] as the list of the values it yields;
    [seen] is the local set. *)
Fixpoint dedupe_from (seen : gset str) (items : list str) : list str :=
  match items with
  | [] => []
  | item :: rest =>
      if truthy item then
        let n := normalize item in
        if truthy n && negb (bool_decide (n ∈ seen))
        then n :: dedupe_from ({[ n ]} ∪ seen) rest
        else dedupe_from seen rest
      else dedupe_from seen rest
  end.

Definition dedupe (items : list str) : list str := dedupe_from ∅ items.

(** The character class [[a-z0-9\-\.]]. *)
Definition host_char (c : ascii) : bool :=
  let n := code c in
  ((97 <=? n) && (n <=? 122) || (48 <=? n) && (n <=? 57)
   || (n =? 45) || (n =? 46))%N.

(** [re.match(r'^[a-z0-9\-\.]+$', s)]: [$] matches at the end of the string
    and also just before a line feed that ends it. *)
Definition is_likely_subdomain (s : str) : bool :=
  let whole := truthy s && forallb host_char s in
  let before_lf :=
    match rev s with
    | c :: r => (code c =? 10)%N && truthy r && forallb host_char r
    | [] => false
    end in
  whole || before_lf.

End Utils.

(* ===================================================================== *)
(** * What a call does: it returns a value or raises *)
(* ===================================================================== *)
Module Py.
Inductive outcome (X : Type) : Type :=
| Returned (x : X)
| Raised.
Arguments Returned {X} x.
Arguments Raised {X}.

(** [try: res = call() except Exception: res = []]. *)
Definition or_empty {X} (o : outcome (list X)) : list X :=
  match o with Returned l => l | Raised => [] end.

(** Truthiness of a list. *)
Definition nonempty {X} (l : list X) : bool :=
  match l with [] => false | _ => true end.

(** A [for] loop whose body may fail to finish (no fuel left). *)
Fixpoint for_each {X S} (body : X -> S -> option S) (xs : list X) (s : S)
  : option S :=
  match xs with
  | [] => Some s
  | x :: r =>
      match body x s with
      | Some s' => for_each body r s'
      | None => None
      end
  end.
End Py.

(* ===================================================================== *)
(** * core/resolver.py *)
(* ===================================================================== *)
Module Resolver.
Import PyStr Py.

Inductive rdtype := A | AAAA | CNAME.

Definition query : Type := str * rdtype.

(** [resolver.resolve(name, rdtype, lifetime)]: the texts of the answer's
    records, or an exception (NXDOMAIN, timeout, SERVFAIL, ...). *)
Inductive answer :=
| Answers (texts : list str)
| LookupError.

(** [_get_resolver]: explicit parameter, else the global override, else
    the system's servers ([None]). *)
Definition _get_resolver (nameservers _GLOBAL_NAMESERVERS : option (list str))
  : option (list str) :=
  let ns := match nameservers with
            | Some l => Some l
            | None => _GLOBAL_NAMESERVERS
            end in
  match ns with
  | Some l => if nonempty l then Some l else None
  | None => None
  end.

(** [results.extend(a)] under [if a:]. *)
Definition extend_if_any (results a : list str) : list str :=
  if nonempty a then results ++ a else results.

(** The final loop of [resolve_name_any]: [deduped] grows by every [x] not
    yet in it. *)
Fixpoint dedup_into (deduped xs : list str) : list str :=
  match xs with
  | [] => deduped
  | x :: r =>
      if bool_decide (x ∈ deduped) then dedup_into deduped r
      else dedup_into (deduped ++ [x]) r
  end.

(** The variables [resolve_cname] closes over, and the queries sent so
    far, oldest first. *)
Record walk := Walk {
  results : list str;
  seen : gset str;
  sent : list query
}.

Section Resolve.
(** The configured resolver.  Its answer may depend on everything that
    was asked before, so that any run of a DNS server, one that
    changes its answers included, is one such function. *)
Variable dns : list query -> str -> rdtype -> answer.

(** [_safe_resolve(resolver, name, rdtype)], with the queries sent. *)
Definition _safe_resolve (h : list query) (name : str) (rd : rdtype)
  : list str * list query :=
  (match dns h name rd with
   | Answers texts => map (rstrip ".") texts
   | LookupError => []
   end,
   h ++ [(name, rd)]).

(** The A and AAAA queries for [name], appended to [results]. *)
Definition addresses (name : str) (w : walk) : walk :=
  let '(a, h1) := _safe_resolve (sent w) name A in
  let r1 := extend_if_any (results w) a in
  let '(aaaa, h2) := _safe_resolve h1 name AAAA in
  let r2 := extend_if_any r1 aaaa in
  Walk r2 (seen w) h2.

Variable max_depth : Z.

(** The body of [for t in cnames], given the recursive call. *)
Definition visit (recurse : str -> walk -> option walk) (t : str) (w : walk)
  : option walk :=
  let t := rstrip "." t in
  if bool_decide (t ∈ seen w) then Some w
  else
    let w1 := Walk (results w ++ [t]) ({[ t ]} ∪ seen w) (sent w) in
    recurse t (addresses t w1).

(** The closure [resolve_cname(target_name, depth)].  [fuel] bounds the
    nesting of calls; [None] means it ran out. *)
Fixpoint resolve_cname (fuel : nat) (target_name : str) (depth : Z) (w : walk)
  : option walk :=
  match fuel with
  | O => None
  | S fuel' =>
      if depth >=? max_depth then Some w
      else
        let '(cnames, h) := _safe_resolve (sent w) target_name CNAME in
        for_each (visit (fun t w' => resolve_cname fuel' t (depth + 1) w'))
                 cnames (Walk (results w) (seen w) h)
  end.

(** [resolve_name_any] up to its last loop: the A and AAAA queries for
    [name], then [resolve_cname(name, depth=0)]. *)
Definition discover (fuel : nat) (name : str) : option walk :=
  resolve_cname fuel name 0 (addresses name (Walk [] ∅ [])).

(** [resolve_name_any(name, timeout, nameservers, max_depth)]: the list
    returned and the queries sent. *)
Definition resolve_name_any (fuel : nat) (name : str)
  : option (list str * list query) :=
  match discover fuel name with
  | Some w => Some (dedup_into [] (results w), sent w)
  | None => None
  end.

(** [t] is a CNAME target that some answer for [n] holds. *)
Definition cname_hop (n t : str) : Prop :=
  exists h, In t (fst (_safe_resolve h n CNAME)).

(** [x] is an A or AAAA record that some answer for [n] holds. *)
Definition address_of (n x : str) : Prop :=
  exists h rd, rd <> CNAME /\ In x (fst (_safe_resolve h n rd)).

(** [hops k n t]: a chain of [k] CNAME records leads from [n] to [t]. *)
Inductive hops : nat -> str -> str -> Prop :=
| hops_here n : hops 0 n n
| hops_next k n m t : hops k n m -> cname_hop m t -> hops (S k) n t.

(** The names asked about lie within [max_depth] hops of [name], those
    asked for a CNAME record strictly within. *)
Definition query_in_reach (name : str) (q : query) : Prop :=
  exists k, hops k name (fst q)
            /\ (k <= Z.to_nat max_depth)%nat
            /\ (snd q = CNAME -> (k < Z.to_nat max_depth)%nat).

(** An entry of the result is an address of a name within [max_depth]
    hops, or a CNAME target at one to [max_depth] hops. *)
Definition entry_in_reach (name x : str) : Prop :=
  (exists k n, (k <= Z.to_nat max_depth)%nat /\ hops k name n /\ address_of n x)
  \/ (exists k, (1 <= k <= Z.to_nat max_depth)%nat /\ hops k name x).

(** Both, for the variables of a walk that started at [name]. *)
Definition in_reach (name : str) (w : walk) : Prop :=
  Forall (query_in_reach name) (sent w)
  /\ Forall (entry_in_reach name) (results w).

(** [res] lists the values of [raw] once each, in the order in which they
    first occur. *)
Definition first_seen_order (raw res : list str) : Prop :=
  List.NoDup res
  /\ (forall x, In x res <-> In x raw)
  /\ (forall p x q, raw = p ++ x :: q -> ~ In x p ->
        exists rp rq, res = rp ++ x :: rq /\ forall y, In y rp <-> In y p).
End Resolve.

(** A zone in which two names are aliases of each other, and one in which
    [c0] is an alias of [c1], [c1] of [c2], and so on up to [c5], with
    an address for each name [c1] to [c5]. *)
Definition cyclic_zone (h : list query) (n : str) (rd : rdtype) : answer :=
  match rd with
  | CNAME =>
      if bool_decide (n = "a.example.com") then Answers ["b.example.com." : str]
      else if bool_decide (n = "b.example.com") then Answers ["a.example.com." : str]
      else LookupError
  | A => if bool_decide (n = "b.example.com") then Answers ["10.0.0.2" : str]
         else LookupError
  | AAAA => LookupError
  end.

Definition chain_zone (h : list query) (n : str) (rd : rdtype) : answer :=
  match n, rd with
  | [c; d], CNAME =>
      if Ascii.eqb c "c" && (48 <=? PyStr.code d)%N && (PyStr.code d <? 53)%N
      then Answers [[c; ascii_of_N (PyStr.code d + 1); "."%char]]
      else LookupError
  | [c; d], A =>
      if Ascii.eqb c "c" && (49 <=? PyStr.code d)%N && (PyStr.code d <=? 53)%N
      then Answers ["10.0.0." ++ [d]]
      else LookupError
  | _, _ => LookupError
  end.

(** [bulk_resolve(names, concurrency, timeout, nameservers)].  The future
    submitted for [names[i]] is known by [i], so that [futures[fut]] is
    [names[fut]]; [run i] is what the call behind it did (it returned a
    list or raised), and [completed] lists the futures in the order in
    which [as_completed(futures)] hands them over. *)
Definition bulk_resolve (names : list str) (run : nat -> outcome (list str))
           (completed : list nat) : PyDict.dict (list str) :=
  fold_left
    (fun results fut =>
       match nth_error names fut with
       | Some n => PyDict.set results n (or_empty (run fut))
       | None => results
       end)
    completed [].

(** [as_completed] hands over every submitted future, once. *)
Definition all_completed (names : list str) (completed : list nat) : Prop :=
  Permutation completed (seq 0 (length names)).

(** Three calls of which the second raises. *)
Definition three_calls (i : nat) : outcome (list str) :=
  match i with
  | 1%nat => Raised
  | _ => Returned ["10.0.0.1" : str]
  end.

(** [detect_wildcard], given what the probes resolved to. *)
Definition detect_wildcard (probes : list (list str)) : bool * gset str :=
  let ips_sets : list (gset str) := map list_to_set probes in
  let combined := ⋃ ips_sets in
  let has := existsb (fun s : gset str => negb (bool_decide (s = ∅))) ips_sets in
  (has, combined).

End Resolver.

(* ===================================================================== *)
(** * core/bruteforce.py *)
(* ===================================================================== *)
Module Bruteforce.
Import PyStr Py Utils.

(** An entry [(fut, cand)] of [pending_futures]; a future is known by the
    number of submissions before it. *)
Record task := Task { fut : nat; cand : str }.

(** The loop's variables, with what came out of it so far: the names
    yielded and the candidates handed to [ex.submit]. *)
Record engine := Engine {
  processed : nat;
  pending_futures : list task;
  yielded : list str;
  submitted : list str
}.

(** A line of the wordlist that holds a word: not blank, not a comment. *)
Definition is_word (raw : str) : bool :=
  let w := strip raw in truthy w && negb (startswith w "#").

(** The candidate a line stands for, [f"{w}.{domain}"]. *)
Definition candidate_of (domain raw : str) : str := strip raw ++ "." ++ domain.

(** The tasks of all submissions, in the order they were made. *)
Fixpoint tasks_from (i : nat) (submitted : list str) : list task :=
  match submitted with
  | [] => []
  | c :: r => Task i c :: tasks_from (S i) r
  end.

Definition all_tasks (submitted : list str) : list task := tasks_from 0 submitted.

Definition lines_of (wordlist : option (list str)) : list str :=
  match wordlist with Some lines => lines | None => [] end.

(** [set(normalize(s) for s in skip_set if s) if skip_set else set()]. *)
Definition skip_names_of (skip_set : option (list str)) : gset str :=
  match skip_set with
  | Some l =>
      if nonempty l then list_to_set (map normalize (List.filter truthy l))
      else ∅
  | None => ∅
  end.

Section Stream.
Variable domain : str.
Variable max_pending : Z.
Variable skip_names : gset str.
(** What the task of future [i] returns or raises. *)
Variable result_of : nat -> outcome (list str).
(** [done_at k i]: [fut.done()] of future [i] when asked while line
    number [k] is being processed. *)
Variable done_at : nat -> nat -> bool.

(** The rescan [for fut, cand in pending_futures] under
    [len(pending_futures) >= max_pending]: the names it yields and
    [new_pending]. *)
Fixpoint scan (now : nat) (pending : list task) : list str * list task :=
  match pending with
  | [] => ([], [])
  | t :: r =>
      let '(out, new_pending) := scan now r in
      if done_at now (fut t) then
        if nonempty (or_empty (result_of (fut t)))
        then (normalize (cand t) :: out, new_pending)
        else (out, new_pending)
      else (out, t :: new_pending)
  end.

(** The loop after the wordlist, [# drain remaining]. *)
Fixpoint drain (pending : list task) : list str :=
  match pending with
  | [] => []
  | t :: r =>
      if nonempty (or_empty (result_of (fut t)))
      then normalize (cand t) :: drain r
      else drain r
  end.

(** One turn of [for raw in fh]. *)
Definition step (e : engine) (raw : str) : engine :=
  let processed := S (processed e) in
  let skip := Engine processed (pending_futures e) (yielded e) (submitted e) in
  let w := strip raw in
  if negb (truthy w) || startswith w "#" then skip
  else
    let candidate := w ++ "." ++ domain in
    let cand_norm := normalize candidate in
    if bool_decide (cand_norm ∈ skip_names) then skip
    else
      let f := length (submitted e) in
      let pending := pending_futures e ++ [Task f candidate] in
      let submitted := submitted e ++ [candidate] in
      if Z.of_nat (length pending) >=? max_pending then
        let '(out, new_pending) := scan processed pending in
        Engine processed new_pending (yielded e ++ out) submitted
      else Engine processed pending (yielded e) submitted.

Definition start : engine := Engine 0 [] [] [].

(** A task whose result is not empty. *)
Definition success (t : task) : bool := nonempty (or_empty (result_of (fut t))).

(** The names of the successes among [tasks], in their order. *)
Definition successes (tasks : list task) : list str :=
  map (fun t => normalize (cand t)) (List.filter success tasks).

(** A list that has reached [max_pending] holds only tasks that the latest
    rescan found unfinished. *)
Definition backlog_unfinished (e : engine) : Prop :=
  Z.of_nat (length (pending_futures e)) < max_pending
  \/ exists k, (k <= processed e)%nat
             /\ Forall (fun t => done_at k (fut t) = false) (pending_futures e).

(** A line that is skipped moves the counter and nothing else. *)
Definition skipped (e e' : engine) : Prop :=
  e' = Engine (S (processed e)) (pending_futures e) (yielded e) (submitted e).

(** What was yielded and what the pending tasks will yield make up the
    successes among everything submitted so far. *)
Definition accounted (e : engine) : Prop :=
  Permutation (yielded e ++ successes (pending_futures e))
              (successes (all_tasks (submitted e))).

(** No submitted candidate has its canonical form among the names to skip. *)
Definition unknown_only (e : engine) : Prop :=
  Forall (fun c => normalize c ∉ skip_names) (submitted e).

(** The engine after each line read. *)
Fixpoint trace (e : engine) (lines : list str) : list engine :=
  match lines with
  | [] => []
  | raw :: r => let e' := step e raw in e' :: trace e' r
  end.

Definition finish (e : engine) : engine :=
  Engine (processed e) [] (yielded e ++ drain (pending_futures e)) (submitted e).

(** The body of [bruteforce_stream] once the wordlist is open. *)
Definition stream_lines (lines : list str) : engine :=
  finish (fold_left step lines start).
End Stream.

(** [bruteforce_stream(domain, wordlist_path, concurrency, max_pending,
    skip_set, timeout)]: [wordlist] is [None] when the file does not
    exist and holds its lines otherwise. *)
Definition bruteforce_stream (domain : str) (wordlist : option (list str))
           (max_pending : Z) (skip_set : option (list str))
           (result_of : nat -> outcome (list str)) (done_at : nat -> nat -> bool)
  : engine :=
  match wordlist with
  | None => start
  | Some lines =>
      stream_lines domain max_pending (skip_names_of skip_set)
                   result_of done_at lines
  end.

(** The backpressure scenario of the spec: [max_pending = 2], five
    candidates that all resolve, none of them finished while the wordlist
    is read. *)
Definition slow_names : list str :=
  ["a" : str; "b" : str; "c" : str; "d" : str; "e" : str].

Definition always_found : nat -> outcome (list str) :=
  fun _ => Returned ["10.0.0.1" : str].

Definition never_done : nat -> nat -> bool := fun _ _ => false.

End Bruteforce.

(* ===================================================================== *)
(** * core/collector.py *)
(* ===================================================================== *)
Module Collector.
Import PyStr Py Utils.
Local Open Scope Q_scope.

(** What [resp.json()] returns. *)
#[warnings="-register-all"]
Inductive json :=
| JNull
| JBool (b : bool)
| JNum (n : Q)
| JStr (s : str)
| JArr (items : list json)
| JObj (members : list (str * json)).

(** One turn of the [try] block: the request raises, [raise_for_status]
    raises, [resp.json()] raises, or the body is parsed. *)
Inductive fetch :=
| NetworkError
| BadStatus
| Unparsable
| Body (data : json).

Definition _RETRY_ATTEMPTS : nat := 3.
Definition _RETRY_BACKOFF_BASE : Q := 3 # 2.

(** How the [for attempt in range(...)] loop is left. *)
Inductive fetched :=
| NotAList                                  (* [return []] inside the loop *)
| LoopDone (last_exc : bool) (data : option (list json)).

(** What the caller can observe of a call. *)
Record collected := Collected {
  ret : outcome (list str);
  requests : list nat;                       (* the attempts made *)
  sleeps : list Q                            (* the [time.sleep] calls *)
}.

(** [item.get(key, default)] on a parsed object: of two members with the
    same key the later one is kept by the parser. *)
Fixpoint obj_get (members : list (str * json)) (key : str) : option json :=
  match members with
  | [] => None
  | (k, v) :: r =>
      match obj_get r key with
      | Some v' => Some v'
      | None => if bool_decide (k = key) then Some v else None
      end
  end.

Section Collect.
Variable domain : str.
(** [http attempt]: what the [attempt]-th request does. *)
Variable http : nat -> fetch.

(** The retry loop over the attempts left; [last_exc] and [data] are the
    variables of the same name ([data] is unbound at first). *)
Fixpoint attempts (todo : list nat) (last_exc : bool) (data : option (list json))
         (reqs : list nat) (slept : list Q) : fetched * list nat * list Q :=
  match todo with
  | [] => (LoopDone last_exc data, reqs, slept)
  | attempt :: rest =>
      match http attempt with
      | Body (JArr items) => (LoopDone false (Some items), reqs ++ [attempt], slept)
      | Body _ => (NotAList, reqs ++ [attempt], slept)
      | _ =>
          if (attempt <? _RETRY_ATTEMPTS)%nat then
            let backoff := _RETRY_BACKOFF_BASE ^ (Z.of_nat attempt - 1) in
            attempts rest true data (reqs ++ [attempt]) (slept ++ [backoff])
          else attempts rest true data (reqs ++ [attempt]) slept
      end
  end.

(** The body of [for line in nv.splitlines()]: the host the line adds,
    if any. *)
Definition host_of_line (line : str) : option str :=
  let line := strip line in
  if negb (truthy line) then None
  else if contains_char "@" line then None
  else
    let candidate := lower (rstrip "." (lstrip "*." line)) in
    if endswith candidate domain && is_likely_subdomain candidate
    then Some (normalize candidate) else None.

Definition hosts_of_value (nv : str) : list str :=
  omap host_of_line (splitlines nv).

(** [for item in data]: an item that is no object has no [get] and the
    call raises. *)
Fixpoint hosts_of_items (data : list json) (hosts : list str)
  : outcome (list str) :=
  match data with
  | [] => Returned hosts
  | JObj members :: rest =>
      match obj_get members "name_value" with
      | Some (JStr nv) => hosts_of_items rest (hosts ++ hosts_of_value nv)
      | Some _ => hosts_of_items rest hosts
      | None => hosts_of_items rest (hosts ++ hosts_of_value "")
      end
  | _ :: _ => Raised
  end.

(** [crt_sh_collect(domain, timeout, calls_per_minute)]. *)
Definition crt_sh_collect : collected :=
  let '(exit, reqs, slept) := attempts (seq 1 _RETRY_ATTEMPTS) false None [] [] in
  match exit with
  | NotAList => Collected (Returned []) reqs slept
  | LoopDone true _ => Collected (Returned []) reqs slept
  | LoopDone false None => Collected Raised reqs slept
  | LoopDone false (Some data) =>
      match hosts_of_items data [] with
      | Returned hosts => Collected (Returned (dedupe hosts)) reqs slept
      | Raised => Collected Raised reqs slept
      end
  end.
End Collect.

(** The response of the spec's scenario, and one with a doubled wildcard
    marker. *)
Definition scenario_body : json :=
  JArr [JObj [("name_value" : str,
               JStr ("*.example.com" ++ ["010"%char] ++ "www.example.com"))]].

Definition doubled_marker_body : json :=
  JArr [JObj [("name_value" : str, JStr "*.*.sub.example.com")]].

End Collector.

(* ===================================================================== *)
(** * cli.py *)
(* ===================================================================== *)
Module Cli.
Import PyStr Py.

(** A result record [{"name": name, "ips": ips}]. *)
Record found := Found { name : str; ips : list str }.

(** [has_wildcard and wildcard_ips and set(ips).issubset(set(wildcard_ips))]. *)
Definition wildcard_only (has_wildcard : bool) (wildcard_ips : gset str)
           (ips : list str) : bool :=
  has_wildcard && negb (bool_decide (wildcard_ips = ∅))
  && bool_decide ((list_to_set ips : gset str) ⊆ wildcard_ips).

(** What the loop over [res_map.items()] does with one entry. *)
Inductive verdict := Kept | WildcardDropped | Unresolved.

Definition judge (has_wildcard : bool) (wildcard_ips : gset str)
           (ips : list str) : verdict :=
  if nonempty ips then
    if wildcard_only has_wildcard wildcard_ips ips then WildcardDropped
    else Kept
  else Unresolved.

(** [for name, ips in res_map.items()]. *)
Fixpoint filter_results (has_wildcard : bool) (wildcard_ips : gset str)
         (items : PyDict.dict (list str)) : list found :=
  match items with
  | [] => []
  | (name, ips) :: rest =>
      match judge has_wildcard wildcard_ips ips with
      | Kept => Found name ips :: filter_results has_wildcard wildcard_ips rest
      | _ => filter_results has_wildcard wildcard_ips rest
      end
  end.

End Cli.

(* ===================================================================== *)
(** * The model at work *)
(* ===================================================================== *)

Example normalize_ex1 : Utils.normalize "  WWW.Example.COM. " = "www.example.com".
Proof. reflexivity. Qed.

Example normalize_ex2 : Utils.normalize "a.." = "a.".
Proof. reflexivity. Qed.

Example splitlines_ex :
  PyStr.splitlines ("ab" ++ ["010"%char; "010"%char] ++ "c" ++ ["013"%char; "010"%char] ++ "d" ++ ["010"%char])
  = ["ab" : str; "" : str; "c" : str; "d" : str].
Proof. reflexivity. Qed.

Example crt_ex :
  Collector.ret (Collector.crt_sh_collect "example.com"
     (fun _ => Collector.Body (Collector.JArr [Collector.JObj
        [("name_value" : str, Collector.JStr ("*.example.com" ++ ["010"%char] ++ "www.example.com"))]])))
  = Py.Returned ["example.com" : str; "www.example.com" : str].
Proof. vm_compute. reflexivity. Qed.

(* ===================================================================== *)
(** * The string methods *)
(* ===================================================================== *)
Module StrFacts.
Import PyStr.


Lemma last_is_snoc p s c : last_is p (s ++ [c]) = p c.
Proof. unfold last_is. rewrite rev_unit. reflexivity. Qed.

Lemma lstrip_with_length p s : (length (lstrip_with p s) <= length s)%nat.
Proof. induction s as [|c r IH]; simpl; [lia|]. destruct (p c); simpl; lia. Qed.

Lemma lstrip_with_first p s : first_is p (lstrip_with p s) = false.
Proof.
  induction s as [|c r IH]; simpl; [reflexivity|].
  destruct (p c) eqn:E; [exact IH|]. simpl. exact E.
Qed.

Lemma lstrip_with_fixed p s : first_is p s = false -> lstrip_with p s = s.
Proof. destruct s as [|c r]; simpl; [reflexivity|]. intros ->. reflexivity. Qed.

Lemma lstrip_with_suffix p s : exists pre, s = pre ++ lstrip_with p s.
Proof.
  induction s as [|c r [pre IH]]; simpl.
  - exists []. reflexivity.
  - destruct (p c).
    + exists (c :: pre). simpl. congruence.
    + exists []. reflexivity.
Qed.

Lemma lstrip_with_keeps_last p s c :
  p c = false -> exists s', lstrip_with p (s ++ [c]) = s' ++ [c].
Proof.
  intros Hc. induction s as [|d r IH]; simpl.
  - rewrite Hc. exists []. reflexivity.
  - destruct (p d); [exact IH|]. exists (d :: r). reflexivity.
Qed.

Lemma rstrip_with_nil p : rstrip_with p [] = [].
Proof. reflexivity. Qed.

Lemma rstrip_with_snoc p s c :
  rstrip_with p (s ++ [c]) = if p c then rstrip_with p s else s ++ [c].
Proof.
  unfold rstrip_with. rewrite rev_unit. simpl.
  destruct (p c); [reflexivity|]. simpl. rewrite rev_involutive. reflexivity.
Qed.

Lemma rstrip_with_length p s : (length (rstrip_with p s) <= length s)%nat.
Proof.
  unfold rstrip_with. rewrite length_rev.
  etransitivity; [apply lstrip_with_length|]. rewrite length_rev. lia.
Qed.

Lemma rstrip_with_last p s : last_is p (rstrip_with p s) = false.
Proof.
  unfold last_is, rstrip_with. rewrite rev_involutive. apply lstrip_with_first.
Qed.

Lemma rstrip_with_fixed p s : last_is p s = false -> rstrip_with p s = s.
Proof.
  unfold last_is, rstrip_with. intros H.
  rewrite lstrip_with_fixed by exact H. apply rev_involutive.
Qed.

Lemma rstrip_with_prefix p s : exists suf, s = rstrip_with p s ++ suf.
Proof.
  unfold rstrip_with. destruct (lstrip_with_suffix p (rev s)) as [pre H].
  exists (rev pre). rewrite <- rev_app_distr, <- H. symmetry. apply rev_involutive.
Qed.

Lemma rstrip_with_first p q s :
  first_is q s = false -> first_is q (rstrip_with p s) = false.
Proof.
  destruct (rstrip_with_prefix p s) as [suf H]. revert H.
  destruct (rstrip_with p s) as [|c r]; [reflexivity|].
  intros ->. simpl. auto.
Qed.

Lemma rstrip_with_protected p a c b :
  p c = false -> rstrip_with p (a ++ c :: b) = a ++ c :: rstrip_with p b.
Proof.
  intros Hc. induction b as [|d b IH] using rev_ind.
  - rewrite rstrip_with_nil.
    change (a ++ [c]) with (a ++ [c]). rewrite rstrip_with_snoc, Hc. reflexivity.
  - replace (a ++ c :: b ++ [d]) with ((a ++ c :: b) ++ [d])
      by (rewrite <- app_assoc; reflexivity).
    rewrite !rstrip_with_snoc. destruct (p d); [exact IH|].
    rewrite <- app_assoc. reflexivity.
Qed.

(** Characters. *)
Lemma isspace_lower_char c : isspace (lower_char c) = isspace c.
Proof. destruct c as [[] [] [] [] [] [] [] []]; reflexivity. Qed.

Lemma lower_char_idem c : lower_char (lower_char c) = lower_char c.
Proof. destruct c as [[] [] [] [] [] [] [] []]; reflexivity. Qed.

Lemma lower_char_dot c : Ascii.eqb (lower_char c) "." = Ascii.eqb c ".".
Proof. destruct c as [[] [] [] [] [] [] [] []]; reflexivity. Qed.

Lemma isspace_dot c : Ascii.eqb c "." = true -> isspace c = false.
Proof. intros H. apply Ascii.eqb_eq in H. subst. reflexivity. Qed.

Lemma lower_idem s : lower (lower s) = lower s.
Proof.
  unfold lower. rewrite map_map. apply map_ext. intros; apply lower_char_idem.
Qed.

Lemma lower_length s : length (lower s) = length s.
Proof. apply length_map. Qed.

Lemma lower_snoc s c : lower (s ++ [c]) = lower s ++ [lower_char c].
Proof. unfold lower. rewrite map_app. reflexivity. Qed.

Lemma first_is_lower p s :
  (forall c, p (lower_char c) = p c) -> first_is p (lower s) = first_is p s.
Proof. intros H. destruct s; simpl; auto. Qed.

Lemma last_is_lower p s :
  (forall c, p (lower_char c) = p c) -> last_is p (lower s) = last_is p s.
Proof.
  intros H. destruct s as [|c s] using rev_ind; [reflexivity|].
  rewrite lower_snoc, !last_is_snoc. apply H.
Qed.

Lemma endswith_dot s : endswith s "." = last_is (fun c => Ascii.eqb c ".") s.
Proof.
  unfold endswith, last_is. simpl. destruct (rev s) as [|c r]; simpl; [reflexivity|].
  destruct r; apply andb_true_r.
Qed.

Lemma drop_last_snoc s c : drop_last (s ++ [c]) = s.
Proof. apply removelast_last. Qed.

Lemma strip_first s : first_is isspace (strip s) = false.
Proof. apply rstrip_with_first, lstrip_with_first. Qed.

Lemma strip_last s : last_is isspace (strip s) = false.
Proof. apply rstrip_with_last. Qed.

Lemma strip_length s : (length (strip s) <= length s)%nat.
Proof.
  unfold strip. etransitivity; [apply rstrip_with_length|apply lstrip_with_length].
Qed.

Lemma strip_fixed s :
  first_is isspace s = false -> last_is isspace s = false -> strip s = s.
Proof.
  intros H1 H2. unfold strip. rewrite lstrip_with_fixed by exact H1.
  apply rstrip_with_fixed, H2.
Qed.

End StrFacts.

(* ===================================================================== *)
(** * [normalize] *)
(* ===================================================================== *)
Module NormFacts.
Import PyStr Utils StrFacts.


Lemma normalize_nil : normalize [] = [].
Proof. reflexivity. Qed.

Lemma normalize_cons c s :
  normalize (c :: s) =
  let t := lower (strip (c :: s)) in
  if endswith t "." then drop_last t else t.
Proof. reflexivity. Qed.

Lemma normalize_nonempty s :
  s <> [] ->
  normalize s =
  let t := lower (strip s) in
  if endswith t "." then drop_last t else t.
Proof. destruct s; [congruence|reflexivity]. Qed.

Lemma drop_last_length t : length (drop_last t) = pred (length t).
Proof.
  destruct t as [|d t] using rev_ind; [reflexivity|].
  rewrite drop_last_snoc, length_app. simpl. lia.
Qed.

Lemma normalize_length s : (length (normalize s) <= length s)%nat.
Proof.
  destruct s as [|c s]; [reflexivity|]. rewrite normalize_cons. cbv zeta.
  pose proof (strip_length (c :: s)) as H.
  rewrite <- (lower_length (strip (c :: s))) in H.
  destruct (endswith _ _); [|exact H].
  rewrite drop_last_length. lia.
Qed.

(** The shape of a normalized name: no white space in front, and already
    in lower case. *)
Lemma normalize_first s : first_is isspace (normalize s) = false.
Proof.
  destruct s as [|c s]; [reflexivity|]. rewrite normalize_cons. cbv zeta.
  assert (H : first_is isspace (lower (strip (c :: s))) = false).
  { rewrite first_is_lower by apply isspace_lower_char. apply strip_first. }
  destruct (endswith _ _); [|exact H].
  destruct (lower (strip (c :: s))) as [|d [|e t]]; try reflexivity.
  exact H.
Qed.

Lemma lower_drop_last s : lower (drop_last s) = drop_last (lower s).
Proof.
  destruct s as [|c s] using rev_ind; [reflexivity|].
  rewrite lower_snoc, !drop_last_snoc. reflexivity.
Qed.

Lemma normalize_lower s : lower (normalize s) = normalize s.
Proof.
  destruct s as [|c s]; [reflexivity|]. rewrite normalize_cons. cbv zeta.
  destruct (endswith _ _).
  - rewrite lower_drop_last, lower_idem. reflexivity.
  - apply lower_idem.
Qed.

Lemma dot_or_space_lower c : dot_or_space (lower_char c) = dot_or_space c.
Proof. unfold dot_or_space. rewrite isspace_lower_char, lower_char_dot. reflexivity. Qed.

(** A name of that shape which ends in neither a dot nor white space is
    left as it is. *)
Lemma normalize_fixed y :
  first_is isspace y = false -> lower y = y ->
  last_is dot_or_space y = false -> normalize y = y.
Proof.
  intros Hf Hl He. destruct y as [|c y]; [reflexivity|].
  rewrite normalize_cons. cbv zeta.
  assert (Hsp : last_is isspace (c :: y) = false).
  { revert He. unfold last_is, dot_or_space.
    destruct (rev (c :: y)); simpl; [reflexivity|].
    intros H. apply orb_false_iff in H. tauto. }
  assert (Hdot : last_is (fun c => Ascii.eqb c ".") (c :: y) = false).
  { revert He. unfold last_is, dot_or_space.
    destruct (rev (c :: y)); simpl; [reflexivity|].
    intros H. apply orb_false_iff in H. tauto. }
  rewrite strip_fixed by assumption. rewrite Hl.
  rewrite endswith_dot, Hdot. reflexivity.
Qed.

(** A name that ends in a dot or in white space gets shorter. *)
Lemma normalize_shrinks y :
  last_is dot_or_space y = true -> (length (normalize y) < length y)%nat.
Proof.
  destruct y as [|c y] using rev_ind; [discriminate|]. clear IHy.
  rewrite last_is_snoc. intros Hc.
  assert (Hne : y ++ [c] <> []) by (destruct y; discriminate).
  destruct (y ++ [c]) as [|d r] eqn:E; [congruence|].
  rewrite normalize_cons. cbv zeta. rewrite <- E. clear Hne.
  destruct (isspace c) eqn:Hsp.
  - (* white space at the end: [strip] removes it *)
    assert (Hs : (length (strip (y ++ [c])) < length (y ++ [c]))%nat).
    { unfold strip.
      destruct (lstrip_with_suffix isspace (y ++ [c])) as [pre Hpre].
      destruct (lstrip_with isspace (y ++ [c])) as [|e l] using rev_ind.
      - rewrite length_app. simpl. lia.
      - clear IHl. pose proof (f_equal (@length ascii) Hpre) as Hlen.
        rewrite app_assoc in Hpre. apply app_inj_tail in Hpre.
        destruct Hpre as [_ <-].
        rewrite rstrip_with_snoc, Hsp.
        pose proof (rstrip_with_length isspace l).
        rewrite Hlen, !length_app. simpl. lia. }
    rewrite <- lower_length in Hs.
    destruct (endswith _ _); [|exact Hs].
    rewrite drop_last_length. lia.
  - (* a dot at the end: [strip] keeps it and [name[:-1]] removes it *)
    unfold dot_or_space in Hc. rewrite Hsp in Hc. simpl in Hc.
    destruct (lstrip_with_keeps_last isspace y c Hsp) as [s' Hs'].
    assert (Hstrip : strip (y ++ [c]) = s' ++ [c]).
    { unfold strip. rewrite Hs', rstrip_with_snoc, Hsp. reflexivity. }
    pose proof (lstrip_with_length isspace (y ++ [c])) as Hlen.
    rewrite Hs' in Hlen.
    rewrite Hstrip, lower_snoc, endswith_dot, last_is_snoc, lower_char_dot, Hc.
    rewrite drop_last_snoc, lower_length.
    rewrite !length_app in *. simpl in *. lia.
Qed.

(** Whether a second pass changes a normalized name. *)
Lemma normalize_stable_iff (x : str) :
  normalize (normalize x) = normalize x
  <-> last_is dot_or_space (normalize x) = false.
Proof.
  split.
  - intros H. destruct (last_is dot_or_space (normalize x)) eqn:E; [|reflexivity].
    apply normalize_shrinks in E. rewrite H in E. lia.
  - intros H. apply normalize_fixed; [apply normalize_first|apply normalize_lower|exact H].
Qed.

(** C2, amended: normalizing a normalized name changes nothing exactly when
    that name ends in neither a dot nor white space; the empty string is
    such a name.  ([normalize] strips one trailing dot, after the white
    space, so a name like ["a.."] needs two passes.) *)
Theorem normalize_idempotent_iff (x : str) :
  normalize (normalize x) = normalize x
  <-> last_is dot_or_space (normalize x) = false.
Proof. apply normalize_stable_iff. Qed.

Lemma normalize_idempotent_on_hostname :
  normalize (normalize "  WWW.Example.COM. ") = normalize "  WWW.Example.COM. ".
Proof. apply normalize_idempotent_iff. reflexivity. Defined.

Example normalize_idempotent_on_empty : normalize (normalize "") = normalize "".
Proof. apply normalize_stable_iff. reflexivity. Qed.

(** C2 as stated fails on ["a.."]: one pass gives ["a."], a second ["a"]. *)
Lemma normalize_not_idempotent :
  ~ (forall x : str, normalize (normalize x) = normalize x).
Proof. intros H. specialize (H ("a.." : str)). vm_compute in H. discriminate. Qed.

Example normalize_two_dots :
  normalize "a.." = "a." /\ normalize (normalize "a..") = "a".
Proof. split; reflexivity. Qed.

End NormFacts.

(* ===================================================================== *)
(** * [bruteforce_stream]: candidates, the skip set, one line *)
(* ===================================================================== *)
Module BruteFacts.
Import PyStr Py Utils Bruteforce StrFacts NormFacts.

(** ** Candidates *)

Lemma truthy_true (s : str) : truthy s = true <-> s <> [].
Proof. destruct s; simpl; split; congruence. Qed.

Lemma lower_nil_inv s : lower s = [] -> s = [].
Proof. destruct s; [reflexivity|discriminate]. Qed.

(** The candidate of a word never normalizes to the empty string. *)
Lemma normalize_candidate_nonempty domain raw :
  is_word raw = true -> normalize (candidate_of domain raw) <> [].
Proof.
  unfold is_word, candidate_of. cbv zeta. intros H.
  apply andb_true_iff in H. destruct H as [Hw _].
  pose proof (strip_first raw) as Hf. pose proof (strip_last raw) as Hl.
  destruct (strip raw) as [|c w] eqn:E; [discriminate|]. clear Hw.
  assert (Hlen : (2 <= length (strip ((c :: w) ++ "." ++ domain)))%nat).
  { unfold strip. rewrite lstrip_with_fixed by exact Hf.
    change ((c :: w) ++ "." ++ domain) with ((c :: w) ++ "."%char :: domain).
    rewrite rstrip_with_protected by reflexivity.
    rewrite length_app. simpl. lia. }
  intros Hn. apply (f_equal (@length ascii)) in Hn. revert Hn.
  change ((c :: w) ++ "." ++ domain) with (c :: (w ++ "." ++ domain)) in *.
  rewrite normalize_cons. cbv zeta.
  destruct (endswith _ _).
  - rewrite drop_last_length, lower_length. cbn [length]. lia.
  - rewrite lower_length. cbn [length]. lia.
Qed.

(** ** The skip set *)

Lemma skip_names_of_spec skip_list c :
  c ∈ skip_names_of (Some skip_list)
  <-> exists s, In s skip_list /\ s <> [] /\ normalize s = c.
Proof.
  unfold skip_names_of. destruct skip_list as [|s0 l]; cbn [nonempty].
  - split; [set_solver|]. intros (s & [] & _).
  - rewrite elem_of_list_to_set, list_elem_of_In, in_map_iff.
    split.
    + intros (s & Hs & Hin). apply filter_In in Hin. destruct Hin as [Hin Ht].
      exists s. rewrite <- truthy_true. tauto.
    + intros (s & Hin & Hne & Hs). exists s. split; [exact Hs|].
      apply filter_In. rewrite truthy_true. auto.
Qed.

Lemma skip_names_of_filter skip_list :
  skip_names_of (Some (List.filter truthy skip_list)) = skip_names_of (Some skip_list).
Proof.
  apply set_eq. intros c. rewrite !skip_names_of_spec.
  split; intros (s & Hin & Hne & Hs); exists s; repeat split; auto.
  - apply filter_In in Hin. tauto.
  - apply filter_In. rewrite truthy_true. auto.
Qed.

Section Stream.
Variable domain : str.
Variable max_pending : Z.
Variable skip_names : gset str.
Variable result_of : nat -> outcome (list str).
Variable done_at : nat -> nat -> bool.

Local Abbreviation step := (step domain max_pending skip_names result_of done_at).
Local Abbreviation scan := (scan result_of done_at).
Local Abbreviation drain := (drain result_of).
Local Abbreviation trace := (trace domain max_pending skip_names result_of done_at).

Local Abbreviation success := (success result_of).
Local Abbreviation successes := (successes result_of).

(** ** The rescan and the final drain, as filters *)

Lemma scan_spec now pending :
  scan now pending =
  (map (fun t => normalize (cand t))
       (List.filter (fun t => done_at now (fut t) && success t) pending),
   List.filter (fun t => negb (done_at now (fut t))) pending).
Proof.
  induction pending as [|t r IH]; simpl; [reflexivity|].
  rewrite IH. unfold Bruteforce.success.
  destruct (done_at now (fut t)); simpl; [|reflexivity].
  destruct (nonempty (or_empty (result_of (fut t)))); reflexivity.
Qed.

Lemma drain_spec pending : drain pending = successes pending.
Proof.
  unfold Bruteforce.successes.
  induction pending as [|t r IH]; simpl; [reflexivity|].
  unfold Bruteforce.success at 1. destruct (nonempty _); simpl; congruence.
Qed.

Lemma drain_app a b : drain (a ++ b) = drain a ++ drain b.
Proof.
  rewrite !drain_spec. unfold Bruteforce.successes.
  rewrite List.filter_app, map_app. reflexivity.
Qed.

(** A rescan loses no success: what it yields and what the kept tasks will
    yield is what the scanned tasks yield. *)
Lemma scan_keeps_successes now pending :
  Permutation (fst (scan now pending) ++ drain (snd (scan now pending)))
              (drain pending).
Proof.
  induction pending as [|t r IH]; simpl; [constructor|].
  destruct (scan now r) as [out keep]. simpl in IH.
  destruct (done_at now (fut t)).
  - destruct (nonempty _); simpl; [constructor|]; exact IH.
  - simpl. destruct (nonempty _); [|exact IH].
    etransitivity; [symmetry; apply Permutation_middle|]. constructor. exact IH.
Qed.

(** ** One line *)


Lemma step_not_word e raw : is_word raw = false -> skipped e (step e raw).
Proof.
  unfold is_word, skipped, Bruteforce.step. cbv zeta. intros H.
  destruct (truthy (strip raw)); simpl in *; [|reflexivity].
  apply negb_false_iff in H. rewrite H. reflexivity.
Qed.

Lemma step_known e raw :
  normalize (candidate_of domain raw) ∈ skip_names -> skipped e (step e raw).
Proof.
  unfold skipped, Bruteforce.step, candidate_of. cbv zeta. intros H.
  destruct (negb (truthy (strip raw)) || startswith (strip raw) "#"); [reflexivity|].
  rewrite bool_decide_eq_true_2 by exact H. reflexivity.
Qed.

(** A line that is submitted. *)
Lemma step_submit e raw :
  is_word raw = true -> normalize (candidate_of domain raw) ∉ skip_names ->
  let c := candidate_of domain raw in
  let pending := pending_futures e ++ [Task (length (submitted e)) c] in
  let now := S (processed e) in
  step e raw =
  if Z.of_nat (length pending) >=? max_pending then
    Engine now (snd (scan now pending)) (yielded e ++ fst (scan now pending))
           (submitted e ++ [c])
  else Engine now pending (yielded e) (submitted e ++ [c]).
Proof.
  unfold is_word, Bruteforce.step, candidate_of. cbv zeta. intros Hw Hs.
  apply andb_true_iff in Hw. destruct Hw as [Hw1 Hw2].
  rewrite Hw1. apply negb_true_iff in Hw2. rewrite Hw2. simpl.
  rewrite bool_decide_eq_false_2 by exact Hs.
  destruct (_ >=? _); [|reflexivity].
  destruct (Bruteforce.scan _ _ _ _). reflexivity.
Qed.

Lemma step_cases e raw :
  skipped e (step e raw)
  \/ (is_word raw = true /\ normalize (candidate_of domain raw) ∉ skip_names).
Proof.
  destruct (is_word raw) eqn:Hw; [|left; apply step_not_word, Hw].
  destruct (decide (normalize (candidate_of domain raw) ∈ skip_names)) as [H|H].
  - left. apply step_known, H.
  - right. auto.
Qed.

(** ** Whole runs *)

Lemma last_cons {X} (x d : X) t : List.last (x :: t) d = List.last t x.
Proof.
  revert x d. induction t as [|y t IH]; intros x d; [reflexivity|].
  change (List.last (y :: t) d = List.last (y :: t) x). rewrite !IH. reflexivity.
Qed.

Lemma trace_last e lines : fold_left step lines e = List.last (trace e lines) e.
Proof.
  revert e. induction lines as [|raw r IH]; intros e; [reflexivity|].
  cbn [fold_left Bruteforce.trace]. rewrite last_cons. apply IH.
Qed.

Lemma run_invariant (P : engine -> Prop) e lines :
  (forall e raw, P e -> P (step e raw)) -> P e ->
  Forall P (trace e lines) /\ P (fold_left step lines e).
Proof.
  intros Hstep. revert e. induction lines as [|raw r IH]; intros e He; simpl.
  - split; [constructor|exact He].
  - destruct (IH (step e raw) (Hstep _ _ He)) as [H1 H2].
    split; [constructor; auto|exact H2].
Qed.

End Stream.
End BruteFacts.

(* ===================================================================== *)
(** * [bruteforce_stream]: what holds along a run *)
(* ===================================================================== *)
Module StreamFacts.
Import PyStr Py Utils Bruteforce StrFacts NormFacts BruteFacts.

Lemma tasks_from_app i a b :
  tasks_from i (a ++ b) = tasks_from i a ++ tasks_from (i + length a) b.
Proof.
  revert i. induction a as [|c a IH]; intros i; simpl.
  - rewrite Nat.add_0_r. reflexivity.
  - rewrite IH. do 3 f_equal. lia.
Qed.

Lemma all_tasks_snoc l c : all_tasks (l ++ [c]) = all_tasks l ++ [Task (length l) c].
Proof. unfold all_tasks. rewrite tasks_from_app. reflexivity. Qed.

Lemma tasks_from_cand i l t : In t (tasks_from i l) -> In (cand t) l.
Proof.
  revert i. induction l as [|c l IH]; intros i; simpl; [tauto|].
  intros [<-|H]; [left; reflexivity|right; eauto].
Qed.

Section Stream.
Variable domain : str.
Variable max_pending : Z.
Variable skip_names : gset str.
Variable result_of : nat -> outcome (list str).
Variable done_at : nat -> nat -> bool.

Local Abbreviation step := (step domain max_pending skip_names result_of done_at).
Local Abbreviation scan := (scan result_of done_at).
Local Abbreviation drain := (drain result_of).
Local Abbreviation trace := (trace domain max_pending skip_names result_of done_at).
Local Abbreviation success := (success result_of).
Local Abbreviation successes := (successes result_of).
Local Abbreviation stream_lines :=
  (stream_lines domain max_pending skip_names result_of done_at).
Local Abbreviation backlog_unfinished := (backlog_unfinished max_pending done_at).

Lemma successes_app a b : successes (a ++ b) = successes a ++ successes b.
Proof. rewrite <- !drain_spec. apply drain_app. Qed.

(** ** No success is lost, none is yielded twice *)

Local Abbreviation accounted := (accounted result_of).

Lemma accounted_step e raw : accounted e -> accounted (step e raw).
Proof.
  unfold accounted. intros He.
  destruct (step_cases domain max_pending skip_names result_of done_at e raw)
    as [-> | [Hw Hs]]; [exact He|].
  rewrite step_submit by assumption. cbv zeta.
  set (c := candidate_of domain raw).
  set (t := Task (length (submitted e)) c).
  assert (Hall : Permutation (yielded e ++ successes (pending_futures e ++ [t]))
                             (successes (all_tasks (submitted e ++ [c])))).
  { rewrite all_tasks_snoc, !successes_app, app_assoc.
    apply Permutation_app_tail, He. }
  destruct (_ >=? _); cbn [yielded pending_futures submitted]; [|exact Hall].
  etransitivity; [|exact Hall].
  rewrite <- app_assoc. apply Permutation_app_head.
  rewrite <- !drain_spec. apply scan_keeps_successes.
Qed.

Lemma accounted_run lines :
  Permutation (yielded (stream_lines lines))
              (successes (all_tasks (submitted (stream_lines lines)))).
Proof.
  unfold Bruteforce.stream_lines, finish. cbn [yielded submitted].
  rewrite drain_spec.
  apply (run_invariant domain max_pending skip_names result_of done_at accounted).
  - apply accounted_step.
  - constructor.
Qed.

(** ** The backlog *)

Lemma backlog_step e raw : backlog_unfinished e -> backlog_unfinished (step e raw).
Proof.
  unfold Bruteforce.backlog_unfinished. intros He.
  destruct (step_cases domain max_pending skip_names result_of done_at e raw)
    as [-> | [Hw Hs]].
  - cbn [pending_futures processed].
    destruct He as [He | (k & Hk & He)]; [left; exact He|].
    right. exists k. split; [lia|exact He].
  - rewrite step_submit by assumption. cbv zeta.
    destruct (_ >=? _) eqn:E; cbn [pending_futures processed].
    + right. exists (S (processed e)). split; [lia|].
      rewrite scan_spec. cbn [snd]. apply List.Forall_forall. intros t Ht.
      apply filter_In in Ht. destruct Ht as [_ Ht].
      apply negb_true_iff in Ht. exact Ht.
    + left. lia.
Qed.

Lemma backlog_start : backlog_unfinished start.
Proof. right. exists 0%nat. split; [reflexivity|constructor]. Qed.

(** ** What is submitted is not known *)

Local Abbreviation unknown_only := (unknown_only skip_names).

Lemma unknown_only_step e raw : unknown_only e -> unknown_only (step e raw).
Proof.
  unfold unknown_only. intros He.
  destruct (step_cases domain max_pending skip_names result_of done_at e raw)
    as [-> | [Hw Hs]]; [exact He|].
  rewrite step_submit by assumption. cbv zeta.
  assert (H : Forall (fun c => normalize c ∉ skip_names)
                     (submitted e ++ [candidate_of domain raw])).
  { apply Forall_app. split; [exact He|]. constructor; [exact Hs|constructor]. }
  destruct (_ >=? _); exact H.
Qed.

Lemma unknown_only_run lines : unknown_only (stream_lines lines).
Proof.
  unfold Bruteforce.stream_lines, finish, unknown_only. cbn [submitted].
  apply (run_invariant domain max_pending skip_names result_of done_at unknown_only).
  - apply unknown_only_step.
  - constructor.
Qed.

Lemma yielded_from_submitted lines y :
  In y (yielded (stream_lines lines)) ->
  exists c, In c (submitted (stream_lines lines)) /\ y = normalize c.
Proof.
  intros Hy.
  apply (Permutation_in _ (accounted_run lines)) in Hy.
  unfold Bruteforce.successes in Hy. apply in_map_iff in Hy.
  destruct Hy as (t & <- & Ht). apply filter_In in Ht. destruct Ht as [Ht _].
  exists (cand t). split; [|reflexivity].
  eapply tasks_from_cand, Ht.
Qed.

(** ** Runs in which every word is known *)

Lemma all_known_run lines e :
  (forall raw, In raw lines -> is_word raw = true ->
               normalize (candidate_of domain raw) ∈ skip_names) ->
  let e' := fold_left step lines e in
  pending_futures e' = pending_futures e /\ yielded e' = yielded e
  /\ submitted e' = submitted e.
Proof.
  revert e. induction lines as [|raw r IH]; intros e H; cbn [fold_left].
  - auto.
  - assert (Hs : skipped e (step e raw)).
    { destruct (is_word raw) eqn:Hw.
      - apply step_known, H; [left; reflexivity|exact Hw].
      - apply step_not_word, Hw. }
    destruct (IH (step e raw)) as (H1 & H2 & H3).
    { intros raw' Hin. apply H. right. exact Hin. }
    cbv zeta in *. rewrite H1, H2, H3, Hs. auto.
Qed.

End Stream.
End StreamFacts.

(* ===================================================================== *)
(** * [bruteforce_stream]: backpressure and the skip set *)
(* ===================================================================== *)
Module StreamClaims.
Import PyStr Py Utils Bruteforce StrFacts NormFacts BruteFacts StreamFacts.

(** C3, amended: a word that is submitted joins the pending list, and if
    the list then holds [max_pending] tasks or more it is rescanned at
    once: the canonical names of the finished tasks with a result that is
    not empty are yielded in list order, finished tasks leave the list and
    unfinished ones stay.  The list is not bounded by [max_pending]: it
    holds that many or more only while every task in it was unfinished at
    the latest rescan.  At the end of the wordlist the remaining tasks are
    waited for and their successes yielded, so that over the whole run the
    names yielded are those of the submitted candidates that resolved,
    each once, and nothing stays pending. *)
Theorem backpressure_by_rescan
        (domain : str) (lines : list str) (max_pending : Z)
        (skip_set : option (list str))
        (result_of : nat -> outcome (list str)) (done_at : nat -> nat -> bool) :
  let skip := skip_names_of skip_set in
  let step := step domain max_pending skip result_of done_at in
  let r := bruteforce_stream domain (Some lines) max_pending skip_set result_of done_at in
  (forall e raw,
      is_word raw = true -> normalize (candidate_of domain raw) ∉ skip ->
      let c := candidate_of domain raw in
      let pending := pending_futures e ++ [Task (length (submitted e)) c] in
      let now := S (processed e) in
      submitted (step e raw) = submitted e ++ [c]
      /\ if Z.of_nat (length pending) >=? max_pending then
           yielded (step e raw)
           = yielded e
             ++ map (fun t => normalize (cand t))
                    (List.filter (fun t => done_at now (fut t) && success result_of t)
                                 pending)
           /\ pending_futures (step e raw)
              = List.filter (fun t => negb (done_at now (fut t))) pending
         else yielded (step e raw) = yielded e
              /\ pending_futures (step e raw) = pending)
  /\ Forall (backlog_unfinished max_pending done_at)
            (trace domain max_pending skip result_of done_at start lines)
  /\ yielded r
     = yielded (fold_left step lines start)
       ++ successes result_of (pending_futures (fold_left step lines start))
  /\ Permutation (yielded r) (successes result_of (all_tasks (submitted r)))
  /\ pending_futures r = [].
Proof.
  cbv zeta. unfold bruteforce_stream.
  split; [|split; [|split; [|split]]].
  - intros e raw Hw Hs. rewrite step_submit by assumption. cbv zeta.
    rewrite scan_spec. destruct (_ >=? _); cbn; auto.
  - apply run_invariant; [apply backlog_step|apply backlog_start].
  - unfold stream_lines, finish. cbn [yielded]. rewrite drain_spec. reflexivity.
  - apply accounted_run.
  - reflexivity.
Qed.


Lemma backpressure_by_rescan_slow :
  Permutation
    (yielded (bruteforce_stream "example.com" (Some slow_names) 2 None
                                always_found never_done))
    (successes always_found
       (all_tasks (submitted (bruteforce_stream "example.com" (Some slow_names) 2 None
                                                always_found never_done)))).
Proof.
  exact (proj1 (proj2 (proj2 (proj2
          (backpressure_by_rescan "example.com" slow_names 2 None
                                  always_found never_done))))).
Defined.

(** C3 as stated fails: the list is rescanned at two tasks and still grows
    to five unfinished ones. *)
Lemma backpressure_bound_fails :
  let tr := trace "example.com" 2 (skip_names_of None) always_found never_done
                  start slow_names in
  map (fun e => length (pending_futures e)) tr = [1; 2; 3; 4; 5]%nat
  /\ ~ Forall (fun e => Z.of_nat (length (pending_futures e)) <= 2) tr.
Proof.
  cbv zeta. split; [vm_compute; reflexivity|].
  intros H. apply Forall_map with (f := fun e => length (pending_futures e))
                                 (P := fun n => Z.of_nat n <= 2) in H.
  revert H. replace (map _ _) with [1; 2; 3; 4; 5]%nat by (vm_compute; reflexivity).
  intros H. do 2 (apply Forall_inv_tail in H). apply Forall_inv in H. lia.
Qed.

Example slow_run_yields_all :
  yielded (bruteforce_stream "example.com" (Some slow_names) 2 None
                             always_found never_done)
  = ["a.example.com" : str; "b.example.com" : str; "c.example.com" : str;
     "d.example.com" : str; "e.example.com" : str].
Proof. vm_compute. reflexivity. Qed.

(** C7, amended: if for every word of the wordlist the canonical form of
    the candidate is in [skip_set] and is itself left alone by [normalize]
    (as it is for every domain that ends in neither a dot nor white
    space), then [bruteforce_stream] yields nothing and submits nothing.
    A missing wordlist gives the same. *)
Theorem known_candidates_cost_nothing
        (domain : str) (wordlist : option (list str)) (max_pending : Z)
        (skip_list : list str)
        (result_of : nat -> outcome (list str)) (done_at : nat -> nat -> bool) :
  (forall raw, In raw (lines_of wordlist) -> is_word raw = true ->
     let c := normalize (candidate_of domain raw) in
     In c skip_list /\ normalize c = c) ->
  let r := bruteforce_stream domain wordlist max_pending (Some skip_list)
                             result_of done_at in
  yielded r = [] /\ submitted r = [].
Proof.
  intros H. destruct wordlist as [lines|]; cbn [bruteforce_stream]; [|auto].
  cbv zeta. unfold stream_lines, finish. cbn [yielded submitted].
  destruct (all_known_run domain max_pending (skip_names_of (Some skip_list))
                          result_of done_at lines start) as (H1 & H2 & H3).
  { intros raw Hin Hw. destruct (H raw Hin Hw) as [Hc Hfix].
    apply skip_names_of_spec. exists (normalize (candidate_of domain raw)).
    split; [exact Hc|]. split; [|exact Hfix].
    apply normalize_candidate_nonempty, Hw. }
  cbv zeta in *. rewrite H1, H2, H3. auto.
Qed.

Lemma known_candidates_cost_nothing_example :
  let r := bruteforce_stream "example.com"
             (Some ["www" : str; "#comment" : str; "" : str; "MAIL " : str]) 1000
             (Some ["mail.example.com" : str; "www.example.com" : str])
             always_found never_done in
  yielded r = [] /\ submitted r = [].
Proof.
  apply known_candidates_cost_nothing.
  intros raw Hin Hw. cbn [lines_of] in Hin.
  destruct Hin as [<- | [<- | [<- | [<- | []]]]]; try discriminate Hw;
    vm_compute; auto.
Defined.

(** C7 as stated fails: the canonical form of the candidate is in the skip
    set, and the candidate is submitted all the same. *)
Lemma known_candidate_submitted :
  let domain : str := "example.com.." in
  let skip_list := ["www.example.com." : str] in
  let r := bruteforce_stream domain (Some ["www" : str]) 1000 (Some skip_list)
                             always_found never_done in
  (forall raw, In raw ["www" : str] -> is_word raw = true ->
               In (normalize (candidate_of domain raw)) skip_list)
  /\ submitted r = ["www.example.com.." : str]
  /\ yielded r = ["www.example.com." : str].
Proof.
  cbv zeta. split; [|split; vm_compute; reflexivity].
  intros raw [<- | []] _. vm_compute. left. reflexivity.
Qed.

(** For a domain that ends in neither a dot nor white space (as every
    domain that cli.py lets through), the canonical form of a candidate is
    left alone by [normalize]. *)
Lemma candidate_canonical (domain raw : str) :
  is_word raw = true -> domain <> [] -> last_is dot_or_space domain = false ->
  let c := normalize (candidate_of domain raw) in normalize c = c.
Proof.
  intros Hw Hne Hlast. cbv zeta. apply normalize_stable_iff.
  unfold is_word in Hw. cbv zeta in Hw. apply andb_true_iff in Hw.
  destruct Hw as [Hw _].
  pose proof (strip_first raw) as Hf. unfold candidate_of.
  destruct (strip raw) as [|a w]; [discriminate|]. clear Hw.
  destruct domain as [|d dom] using rev_ind; [congruence|]. clear IHdom Hne.
  rewrite last_is_snoc in Hlast.
  assert (Hsp : isspace d = false).
  { unfold dot_or_space in Hlast. apply orb_false_iff in Hlast. tauto. }
  assert (Hdot : Ascii.eqb d "." = false).
  { unfold dot_or_space in Hlast. apply orb_false_iff in Hlast. tauto. }
  set (body := (a :: w) ++ "." ++ dom).
  assert (E : (a :: w) ++ "." ++ dom ++ [d] = body ++ [d]).
  { unfold body. rewrite <- !app_assoc. reflexivity. }
  rewrite E.
  assert (Hstrip : strip (body ++ [d]) = body ++ [d]).
  { apply strip_fixed; [reflexivity + exact Hf|rewrite last_is_snoc; exact Hsp]. }
  assert (Hnorm : normalize (body ++ [d]) = lower (body ++ [d])).
  { rewrite normalize_nonempty by (destruct body; discriminate).
    cbv zeta. rewrite Hstrip.
    rewrite endswith_dot, last_is_lower by apply lower_char_dot.
    rewrite last_is_snoc, Hdot. reflexivity. }
  rewrite Hnorm, last_is_lower by apply dot_or_space_lower.
  rewrite last_is_snoc. exact Hlast.
Qed.

(** C9: the entries of [skip_set] are normalized before the membership
    test, so an entry that is not empty and has the canonical form of a
    candidate keeps that candidate from being submitted and its name from
    being yielded, however the entry is written; and empty entries are
    dropped: the run is the one without them. *)
Theorem skip_set_is_normalized
        (domain : str) (wordlist : option (list str)) (max_pending : Z)
        (skip_list : list str)
        (result_of : nat -> outcome (list str)) (done_at : nat -> nat -> bool) :
  let r := bruteforce_stream domain wordlist max_pending (Some skip_list)
                             result_of done_at in
  (forall s c, In s skip_list -> s <> [] -> normalize s = normalize c ->
               ~ In c (submitted r) /\ ~ In (normalize c) (yielded r))
  /\ r = bruteforce_stream domain wordlist max_pending
                           (Some (List.filter truthy skip_list)) result_of done_at.
Proof.
  cbv zeta. split.
  - intros s c Hin Hne Hs.
    assert (Hc : normalize c ∈ skip_names_of (Some skip_list)).
    { apply skip_names_of_spec. eauto. }
    destruct wordlist as [lines|]; cbn [bruteforce_stream]; [|cbn; tauto].
    pose proof (unknown_only_run domain max_pending (skip_names_of (Some skip_list))
                                 result_of done_at lines) as Hun.
    unfold unknown_only in Hun. rewrite List.Forall_forall in Hun.
    split.
    + intros Hsub. apply (Hun c Hsub), Hc.
    + intros Hy. apply yielded_from_submitted in Hy.
      destruct Hy as (c' & Hc' & E). apply (Hun c' Hc'). rewrite <- E. exact Hc.
  - unfold bruteforce_stream. rewrite skip_names_of_filter. reflexivity.
Qed.

Lemma skip_set_is_normalized_example :
  let r := bruteforce_stream "example.com" (Some ["www" : str; "mail" : str]) 1000
                             (Some ["" : str; "WWW.Example.COM." : str])
                             always_found never_done in
  ~ In ("www.example.com" : str) (submitted r)
  /\ ~ In ("www.example.com" : str) (yielded r).
Proof.
  cbv zeta.
  refine (proj1 (skip_set_is_normalized "example.com"
                   (Some ["www" : str; "mail" : str]) 1000
                   ["" : str; "WWW.Example.COM." : str] always_found never_done)
                ("WWW.Example.COM." : str) ("www.example.com" : str) _ _ _).
  - right. left. reflexivity.
  - discriminate.
  - reflexivity.
Defined.

End StreamClaims.

(* ===================================================================== *)
(** * Dictionaries and [bulk_resolve] *)
(* ===================================================================== *)
Module DictFacts.
Import PyDict.
Section Dict.
Context {V : Type}.
Implicit Types (d : dict V) (k : str) (v : V).

Lemma get_set_same d k v : get (set d k v) k = Some v.
Proof.
  induction d as [|[k' v'] r IH]; simpl.
  - rewrite decide_True by reflexivity. reflexivity.
  - destruct (decide (k' = k)) as [E|E]; simpl.
    + rewrite decide_True by exact E. reflexivity.
    + rewrite decide_False by exact E. exact IH.
Qed.

Lemma get_set_other d k v k' : k <> k' -> get (set d k v) k' = get d k'.
Proof.
  intros Hne. induction d as [|[k0 v0] r IH]; simpl.
  - rewrite decide_False by exact Hne. reflexivity.
  - destruct (decide (k0 = k)) as [E|E]; simpl.
    + subst k0. rewrite !decide_False by exact Hne. reflexivity.
    + destruct (decide (k0 = k')); [reflexivity|exact IH].
Qed.

Lemma get_Some_keys d k : (exists v, get d k = Some v) <-> In k (keys d).
Proof.
  induction d as [|[k' v'] r IH]; simpl.
  - split; [intros [v H]; discriminate|tauto].
  - destruct (decide (k' = k)) as [E|E].
    + split; [auto|eauto].
    + rewrite IH. tauto.
Qed.

Lemma keys_set_In d k v k' : In k' (keys (set d k v)) <-> k' = k \/ In k' (keys d).
Proof.
  induction d as [|[k0 v0] r IH]; simpl.
  - intuition congruence.
  - destruct (decide (k0 = k)) as [E|E]; simpl.
    + subst k0. intuition congruence.
    + rewrite IH. intuition congruence.
Qed.

Lemma keys_set_NoDup d k v :
  List.NoDup (keys d) -> List.NoDup (keys (set d k v)).
Proof.
  induction d as [|[k0 v0] r IH]; simpl; intros Hd.
  - repeat constructor. intros H. inversion H.
  - inversion Hd as [|? ? Hnotin Hr]; subst.
    destruct (decide (k0 = k)) as [E|E]; simpl; [exact Hd|].
    constructor; [|apply IH, Hr].
    rewrite keys_set_In. intuition congruence.
Qed.

End Dict.
End DictFacts.

Module BulkFacts.
Import PyStr Py PyDict Resolver DictFacts.

Section Bulk.
Variable names : list str.
Variable run : nat -> outcome (list str).

Local Abbreviation bulk_resolve := (bulk_resolve names run).

Lemma bulk_snoc completed i :
  bulk_resolve (completed ++ [i])
  = match nth_error names i with
    | Some n => PyDict.set (bulk_resolve completed) n (or_empty (run i))
    | None => bulk_resolve completed
    end.
Proof. unfold Resolver.bulk_resolve. rewrite fold_left_app. reflexivity. Qed.

Lemma bulk_keys_NoDup completed : List.NoDup (keys (bulk_resolve completed)).
Proof.
  induction completed as [|i c IH] using rev_ind; [constructor|].
  rewrite bulk_snoc. destruct (nth_error names i); [|exact IH].
  apply keys_set_NoDup, IH.
Qed.

(** The keys are the names of the futures handed over. *)
Lemma bulk_keys completed n :
  In n (keys (bulk_resolve completed))
  <-> exists i, In i completed /\ nth_error names i = Some n.
Proof.
  induction completed as [|j c IH] using rev_ind.
  - simpl. split; [tauto|]. intros (i & [] & _).
  - rewrite bulk_snoc. destruct (nth_error names j) as [m|] eqn:E.
    + rewrite keys_set_In, IH. split.
      * intros [-> | (i & Hi & Hn)]; [exists j|exists i];
          (split; [apply in_app_iff; simpl; auto|assumption]).
      * intros (i & Hi & Hn). apply in_app_iff in Hi.
        destruct Hi as [Hi|[<-|[]]]; [eauto|]. left. congruence.
    + rewrite IH. split.
      * intros (i & Hi & Hn). exists i. split; [apply in_app_iff; auto|exact Hn].
      * intros (i & Hi & Hn). apply in_app_iff in Hi.
        destruct Hi as [Hi|[<-|[]]]; [eauto|congruence].
Qed.

(** The list of a name is that of the last of its futures handed over. *)
Lemma bulk_value completed n :
  (exists i, In i completed /\ nth_error names i = Some n) ->
  exists i, In i completed /\ nth_error names i = Some n
            /\ get (bulk_resolve completed) n = Some (or_empty (run i)).
Proof.
  induction completed as [|j c IH] using rev_ind.
  - intros (i & [] & _).
  - intros (i & Hi & Hn). rewrite bulk_snoc.
    assert (Hold : (exists i, In i c /\ nth_error names i = Some n) ->
                   exists i, In i (c ++ [j]) /\ nth_error names i = Some n
                             /\ get (bulk_resolve c) n = Some (or_empty (run i))).
    { intros H. destruct (IH H) as (i' & Hin & Hn' & Hget).
      exists i'. split; [apply in_app_iff; auto|auto]. }
    destruct (nth_error names j) as [m|] eqn:E.
    + destruct (decide (m = n)) as [->|Hne].
      * exists j. rewrite get_set_same.
        split; [apply in_app_iff; simpl; auto|auto].
      * rewrite get_set_other by exact Hne. apply Hold.
        apply in_app_iff in Hi. destruct Hi as [Hi|[<-|[]]]; [eauto|congruence].
    + apply Hold.
      apply in_app_iff in Hi. destruct Hi as [Hi|[<-|[]]]; [eauto|congruence].
Qed.

End Bulk.
End BulkFacts.

Module BulkClaims.
Import PyStr Py PyDict Resolver DictFacts BulkFacts.

(** C1, amended: for every list of names, every outcome of the submitted
    calls and every order of completion, [bulk_resolve] returns a
    dictionary whose keys are the input names, each once; the list of a
    name is what one of the calls for it returned, the empty list if that
    call raised.  When the names are pairwise distinct (as those [main]
    passes) there are exactly as many entries as names, and the entry of
    [names[i]] is the result of call [i], empty when it raised. *)
Theorem bulk_resolve_entries
        (names : list str) (run : nat -> outcome (list str))
        (completed : list nat) :
  all_completed names completed ->
  let res := bulk_resolve names run completed in
  List.NoDup (keys res)
  /\ (forall n, In n (keys res) <-> In n names)
  /\ (forall n, In n names ->
        exists i, nth_error names i = Some n /\ get res n = Some (or_empty (run i)))
  /\ (List.NoDup names ->
        length res = length names
        /\ forall i n, nth_error names i = Some n ->
             get res n = Some (or_empty (run i))
             /\ (run i = Raised -> get res n = Some [])).
Proof.
  unfold all_completed. intros Hperm. cbv zeta.
  assert (Hin : forall i n, nth_error names i = Some n -> In i completed).
  { intros i n Hi. apply (Permutation_in _ (Permutation_sym Hperm)).
    apply in_seq. assert (i < length names)%nat; [|lia].
    apply nth_error_Some. congruence. }
  assert (Hkeys : forall n, In n (keys (bulk_resolve names run completed))
                            <-> In n names).
  { intros n. rewrite bulk_keys. split.
    - intros (i & _ & Hi). eapply nth_error_In, Hi.
    - intros Hn. apply In_nth_error in Hn. destruct Hn as [i Hi]. eauto. }
  assert (Hval : forall n, In n names ->
            exists i, nth_error names i = Some n
                      /\ get (bulk_resolve names run completed) n
                         = Some (or_empty (run i))).
  { intros n Hn. destruct (bulk_value names run completed n) as (i & _ & Hi & Hget).
    - apply (proj1 (bulk_keys names run completed n)), (proj2 (Hkeys n)), Hn.
    - eauto. }
  split; [apply bulk_keys_NoDup|]. split; [exact Hkeys|]. split; [exact Hval|].
  intros Hnd. split.
  - rewrite <- (length_map fst). change (map fst ?d) with (keys d).
    apply Permutation_length, Permutation.NoDup_Permutation.
    + apply bulk_keys_NoDup.
    + exact Hnd.
    + exact Hkeys.
  - intros i n Hi.
    assert (Hget : get (bulk_resolve names run completed) n
                   = Some (or_empty (run i))).
    { destruct (Hval n (nth_error_In _ _ Hi)) as (j & Hj & Hget).
      assert (j = i) as ->; [|exact Hget].
      apply (proj1 (NoDup_nth_error names) Hnd).
      - apply nth_error_Some. congruence.
      - congruence. }
    split; [exact Hget|]. intros E. rewrite Hget, E. reflexivity.
Qed.

Lemma bulk_resolve_entries_example :
  let names := ["a.example.com" : str; "b.example.com" : str; "c.example.com" : str] in
  let res := bulk_resolve names three_calls [2; 0; 1]%nat in
  length res = 3%nat /\ get res "b.example.com" = Some [].
Proof.
  cbv zeta.
  set (names := ["a.example.com" : str; "b.example.com" : str; "c.example.com" : str]).
  assert (Hall : all_completed names [2; 0; 1]%nat).
  { unfold all_completed. cbn [names length seq].
    apply perm_trans with (l' := [0; 2; 1]%nat); [apply perm_swap|].
    apply perm_skip, perm_swap. }
  assert (Hnd : List.NoDup names).
  { repeat constructor; cbn [In]; intuition discriminate. }
  destruct (bulk_resolve_entries names three_calls [2; 0; 1]%nat Hall)
    as (_ & _ & _ & H).
  destruct (H Hnd) as [Hlen Hget]. split; [exact Hlen|].
  exact (proj2 (Hget 1%nat ("b.example.com" : str) eq_refl) eq_refl).
Defined.

Example bulk_resolve_three :
  bulk_resolve ["a.example.com" : str; "b.example.com" : str; "c.example.com" : str]
               three_calls [2; 0; 1]%nat
  = [("c.example.com" : str, ["10.0.0.1" : str]);
     ("a.example.com" : str, ["10.0.0.1" : str]);
     ("b.example.com" : str, [])].
Proof. vm_compute. reflexivity. Qed.

(** C1 as stated fails: a name given twice has one entry. *)
Lemma bulk_resolve_repeated_name :
  let names := ["a.example.com" : str; "a.example.com" : str] in
  let res := bulk_resolve names (fun _ => Returned ["10.0.0.1" : str]) [0; 1]%nat in
  all_completed names [0; 1]%nat /\ length names = 2%nat /\ length res = 1%nat.
Proof.
  cbv zeta. split; [apply Permutation_refl|]. vm_compute. split; reflexivity.
Qed.

End BulkClaims.

(* ===================================================================== *)
(** * [resolve_name_any] *)
(* ===================================================================== *)
Module LoopFacts.
Import Py.

Lemma for_each_total {X S} (body : X -> S -> option S) xs :
  (forall x s, In x xs -> exists s', body x s = Some s') ->
  forall s, exists s', for_each body xs s = Some s'.
Proof.
  induction xs as [|x r IH]; intros H s; simpl; [eauto|].
  destruct (H x s (or_introl eq_refl)) as [s1 ->].
  apply IH. intros y s2 Hy. apply H. right. exact Hy.
Qed.

Lemma for_each_invariant {X S} (P : S -> Prop) (body : X -> S -> option S) xs :
  (forall x s s', In x xs -> P s -> body x s = Some s' -> P s') ->
  forall s s', P s -> for_each body xs s = Some s' -> P s'.
Proof.
  induction xs as [|x r IH]; intros H s s' Hs; simpl.
  - intros E. inversion E; subst. exact Hs.
  - destruct (body x s) as [s1|] eqn:E; [|discriminate].
    apply IH; [|eapply H; eauto; left; reflexivity].
    intros y s2 s3 Hy. apply H. right. exact Hy.
Qed.

End LoopFacts.

Module DedupFacts.
Import Resolver.

Lemma dedup_into_app acc a b :
  dedup_into acc (a ++ b) = dedup_into (dedup_into acc a) b.
Proof.
  revert acc. induction a as [|x a IH]; intros acc; simpl; [reflexivity|].
  destruct (bool_decide (x ∈ acc)); apply IH.
Qed.

Lemma dedup_into_extends acc l : exists r, dedup_into acc l = acc ++ r.
Proof.
  revert acc. induction l as [|x l IH]; intros acc; simpl.
  - exists []. symmetry. apply app_nil_r.
  - destruct (bool_decide (x ∈ acc)); [apply IH|].
    destruct (IH (acc ++ [x])) as [r ->]. exists (x :: r).
    rewrite <- app_assoc. reflexivity.
Qed.

Lemma dedup_into_In acc l x : In x (dedup_into acc l) <-> In x acc \/ In x l.
Proof.
  revert acc. induction l as [|y l IH]; intros acc; simpl; [tauto|].
  destruct (bool_decide (y ∈ acc)) eqn:E.
  - apply bool_decide_eq_true in E. apply list_elem_of_In in E.
    rewrite IH. intuition congruence.
  - rewrite IH, in_app_iff. simpl. tauto.
Qed.

Lemma dedup_into_NoDup acc l : List.NoDup acc -> List.NoDup (dedup_into acc l).
Proof.
  revert acc. induction l as [|y l IH]; intros acc Hacc; simpl; [exact Hacc|].
  destruct (bool_decide (y ∈ acc)) eqn:E; [apply IH, Hacc|].
  apply bool_decide_eq_false in E. rewrite list_elem_of_In in E.
  apply IH. apply NoDup_Add with (a := y) (l := acc).
  - clear. induction acc; simpl; constructor. assumption.
  - split; assumption.
Qed.

Lemma dedup_first_seen raw : first_seen_order raw (dedup_into [] raw).
Proof.
  split; [apply dedup_into_NoDup; constructor|]. split.
  - intros x. rewrite dedup_into_In. simpl. tauto.
  - intros p x q -> Hx. rewrite dedup_into_app. simpl.
    assert (Hp : forall y, In y (dedup_into [] p) <-> In y p).
    { intros y. rewrite dedup_into_In. simpl. tauto. }
    rewrite bool_decide_eq_false_2
      by (rewrite list_elem_of_In, Hp; exact Hx).
    destruct (dedup_into_extends (dedup_into [] p ++ [x]) q) as [r ->].
    exists (dedup_into [] p), r. rewrite <- app_assoc. split; [reflexivity|exact Hp].
Qed.

End DedupFacts.

Module ResolveFacts.
Import PyStr Py Resolver StrFacts LoopFacts DedupFacts.

Lemma rstrip_idem chars s : rstrip chars (rstrip chars s) = rstrip chars s.
Proof. unfold rstrip. apply rstrip_with_fixed, rstrip_with_last. Qed.

Lemma extend_if_any_app r a : extend_if_any r a = r ++ a.
Proof. destruct a; simpl; [symmetry; apply app_nil_r|reflexivity]. Qed.

Section Resolve.
Variable dns : list query -> str -> rdtype -> answer.
Variable max_depth : Z.

Local Abbreviation _safe_resolve := (_safe_resolve dns).
Local Abbreviation addresses := (addresses dns).
Local Abbreviation resolve_cname := (resolve_cname dns max_depth).
Local Abbreviation hops := (hops dns).
Local Abbreviation cname_hop := (cname_hop dns).
Local Abbreviation address_of := (address_of dns).

Lemma safe_resolve_sent h n rd : snd (_safe_resolve h n rd) = h ++ [(n, rd)].
Proof. reflexivity. Qed.

(** What [_safe_resolve] returns has no trailing dot left to strip. *)
Lemma safe_resolve_stripped h n rd t :
  In t (fst (_safe_resolve h n rd)) -> rstrip "." t = t.
Proof.
  unfold Resolver._safe_resolve. simpl. destruct (dns h n rd) as [texts|]; [|intros []].
  intros H. apply in_map_iff in H. destruct H as (t0 & <- & _). apply rstrip_idem.
Qed.

Lemma addresses_results n w :
  results (addresses n w)
  = results w ++ fst (_safe_resolve (sent w) n A)
              ++ fst (_safe_resolve (sent w ++ [(n, A)]) n AAAA).
Proof.
  unfold Resolver.addresses. simpl. rewrite !extend_if_any_app, app_assoc. reflexivity.
Qed.

Lemma addresses_sent n w : sent (addresses n w) = sent w ++ [(n, A); (n, AAAA)].
Proof. unfold Resolver.addresses. simpl. rewrite <- app_assoc. reflexivity. Qed.

Lemma addresses_seen n w : seen (addresses n w) = seen w.
Proof. reflexivity. Qed.

(** ** Termination *)

Lemma resolve_cname_returns fuel :
  forall target depth w,
    (Z.to_nat (max_depth - depth) < fuel)%nat ->
    exists w', resolve_cname fuel target depth w = Some w'.
Proof.
  induction fuel as [|fuel IH]; intros target depth w Hfuel; [lia|].
  cbn [Resolver.resolve_cname].
  destruct (depth >=? max_depth) eqn:E; [eauto|].
  destruct (_safe_resolve (sent w) target CNAME) as [cnames h].
  apply for_each_total. intros t s _. unfold visit.
  destruct (bool_decide _); [eauto|].
  apply IH. lia.
Qed.

(** ** What is asked and what is found *)

Variable name : str.

Local Abbreviation in_reach := (in_reach dns max_depth name).

Lemma addresses_in_reach k n w :
  hops k name n -> (k <= Z.to_nat max_depth)%nat ->
  in_reach w -> in_reach (addresses n w).
Proof.
  intros Hk Hle [Hq Hr]. split.
  - rewrite addresses_sent. apply Forall_app. split; [exact Hq|].
    repeat constructor; exists k; simpl; (split; [exact Hk|split; [exact Hle|discriminate]]).
  - rewrite addresses_results. apply Forall_app. split; [exact Hr|].
    apply Forall_app. split; apply List.Forall_forall; intros x Hx; left;
      exists k, n; (split; [exact Hle|split; [exact Hk|]]).
    + exists (sent w), A. split; [discriminate|exact Hx].
    + exists (sent w ++ [(n, A)]), AAAA. split; [discriminate|exact Hx].
Qed.

Lemma resolve_cname_in_reach fuel :
  forall d target w w',
    hops d name target ->
    resolve_cname fuel target (Z.of_nat d) w = Some w' ->
    in_reach w -> in_reach w'.
Proof.
  induction fuel as [|fuel IH]; intros d target w w' Hd; [discriminate|].
  cbn [Resolver.resolve_cname].
  destruct (Z.of_nat d >=? max_depth) eqn:E.
  { intros H; inversion H; subst; auto. }
  assert (Hlt : (d < Z.to_nat max_depth)%nat) by lia.
  destruct (_safe_resolve (sent w) target CNAME) as [cnames h] eqn:Eq.
  assert (Hh : h = sent w ++ [(target, CNAME)]).
  { rewrite <- (safe_resolve_sent (sent w) target CNAME), Eq. reflexivity. }
  assert (Hc : forall t, In t cnames -> cname_hop target t).
  { intros t Ht. exists (sent w). rewrite Eq. exact Ht. }
  assert (Hs : forall t, In t cnames -> rstrip "." t = t).
  { intros t Ht. apply (safe_resolve_stripped (sent w) target CNAME).
    rewrite Eq. exact Ht. }
  intros Hrun Hw. revert Hrun.
  apply for_each_invariant.
  - intros t s s' Ht Hs0. unfold visit. rewrite (Hs t Ht).
    destruct (bool_decide _); [intros H; inversion H; subst; exact Hs0|].
    assert (Ht' : hops (S d) name t) by (econstructor; eauto).
    replace (Z.of_nat d + 1) with (Z.of_nat (S d)) by lia.
    intros Hrec. eapply (IH (S d) t); [exact Ht'|exact Hrec|].
    apply (addresses_in_reach (S d)); [exact Ht'|lia|].
    destruct Hs0 as [Hq Hr]. split; [exact Hq|].
    cbn [results]. apply Forall_app. split; [exact Hr|].
    constructor; [|constructor]. right. exists (S d). split; [lia|exact Ht'].
  - destruct Hw as [Hq Hr]. split; [|exact Hr].
    cbn [sent]. rewrite Hh. apply Forall_app. split; [exact Hq|].
    constructor; [|constructor]. exists d. simpl. split; [exact Hd|]. split; [lia|lia].
Qed.

End Resolve.
End ResolveFacts.

Module ResolveClaims.
Import PyStr Py Resolver StrFacts LoopFacts DedupFacts ResolveFacts.

(** C4: for every name, every resolver (one that changes its answers
    included) and every [max_depth], [resolve_name_any] returns once the
    fuel exceeds [max_depth]: no call nests deeper.  Every name it asks
    about lies within [max_depth] CNAME hops of [name], and strictly
    within when it asks for a CNAME record; every entry of the result is
    an address of such a name or a CNAME target at one to [max_depth]
    hops; and the result lists the values found once each, in the order in
    which they were first found. *)
Theorem resolve_name_any_bounded
        (dns : list query -> str -> rdtype -> answer) (max_depth : Z)
        (name : str) (fuel : nat) :
  (Z.to_nat max_depth < fuel)%nat ->
  exists w res,
    discover dns max_depth fuel name = Some w
    /\ resolve_name_any dns max_depth fuel name = Some (res, sent w)
    /\ first_seen_order (results w) res
    /\ Forall (query_in_reach dns max_depth name) (sent w)
    /\ Forall (entry_in_reach dns max_depth name) res.
Proof.
  intros Hfuel.
  destruct (resolve_cname_returns dns max_depth fuel name 0
              (addresses dns name (Walk [] ∅ []))) as [w Hw]; [lia|].
  assert (Hreach : in_reach dns max_depth name w).
  { apply (resolve_cname_in_reach dns max_depth name fuel 0%nat name
             (addresses dns name (Walk [] ∅ [])) w).
    - constructor.
    - exact Hw.
    - apply (addresses_in_reach dns max_depth name 0%nat).
      + constructor.
      + lia.
      + split; constructor. }
  exists w, (dedup_into [] (results w)).
  split; [exact Hw|]. split.
  { unfold resolve_name_any, discover in *. rewrite Hw. reflexivity. }
  split; [apply dedup_first_seen|]. destruct Hreach as [Hq Hr].
  split; [exact Hq|].
  rewrite List.Forall_forall in *. intros x Hx. apply Hr.
  apply dedup_into_In in Hx. simpl in Hx. tauto.
Qed.

Lemma resolve_name_any_bounded_cycle :
  exists w res,
    discover cyclic_zone 3 4 "a.example.com" = Some w
    /\ resolve_name_any cyclic_zone 3 4 "a.example.com" = Some (res, sent w)
    /\ first_seen_order (results w) res
    /\ Forall (query_in_reach cyclic_zone 3 "a.example.com") (sent w)
    /\ Forall (entry_in_reach cyclic_zone 3 "a.example.com") res.
Proof.
  apply (resolve_name_any_bounded cyclic_zone 3 "a.example.com" 4). vm_compute. lia.
Defined.

Example cycle_result :
  option_map fst (resolve_name_any cyclic_zone 3 4 "a.example.com")
  = Some ["b.example.com" : str; "10.0.0.2" : str; "a.example.com" : str].
Proof. vm_compute. reflexivity. Qed.

Example chain_cut_at_depth :
  option_map fst (resolve_name_any chain_zone 2 3 "c0")
  = Some ["c1" : str; "10.0.0.1" : str; "c2" : str; "10.0.0.2" : str].
Proof. vm_compute. reflexivity. Qed.

Example chain_no_depth :
  option_map fst (resolve_name_any chain_zone (-1) 1 "c1")
  = Some ["10.0.0.1" : str].
Proof. vm_compute. reflexivity. Qed.

End ResolveClaims.

(* ===================================================================== *)
(** * [crt_sh_collect] *)
(* ===================================================================== *)
Module CollectFacts.
Import PyStr Py Utils Collector StrFacts.

Lemma lstrip_with_split p s :
  exists pre, s = pre ++ lstrip_with p s /\ forallb p pre = true.
Proof.
  induction s as [|c r (pre & IH & Hpre)]; simpl.
  - exists []. auto.
  - destruct (p c) eqn:E.
    + exists (c :: pre). simpl. rewrite E, Hpre. split; [congruence|reflexivity].
    + exists []. auto.
Qed.

Lemma rstrip_with_split p s :
  exists suf, s = rstrip_with p s ++ suf /\ forallb p suf = true.
Proof.
  unfold rstrip_with. destruct (lstrip_with_split p (rev s)) as (pre & H & Hpre).
  exists (rev pre). split.
  - rewrite <- rev_app_distr, <- H. symmetry. apply rev_involutive.
  - rewrite forallb_forall in *. intros x Hx. apply Hpre, in_rev, Hx.
Qed.

(** The part of a line that is tested: the line without the markers in
    front and the dots behind. *)
Lemma markers_stripped (l : str) :
  exists stars dots,
    l = stars ++ rstrip "." (lstrip "*." l) ++ dots
    /\ forallb (one_of "*.") stars = true
    /\ forallb (one_of ".") dots = true
    /\ first_is (one_of "*.") (rstrip "." (lstrip "*." l)) = false
    /\ last_is (one_of ".") (rstrip "." (lstrip "*." l)) = false.
Proof.
  unfold lstrip, rstrip.
  destruct (lstrip_with_split (one_of "*.") l) as (stars & H1 & Hs).
  destruct (rstrip_with_split (one_of ".") (lstrip_with (one_of "*.") l))
    as (dots & H2 & Hd).
  exists stars, dots. split; [|split; [exact Hs|split; [exact Hd|split]]].
  - rewrite <- H2. exact H1.
  - apply rstrip_with_first, lstrip_with_first.
  - apply rstrip_with_last.
Qed.

Section Retry.
Variable domain : str.
Variable http : nat -> fetch.

Lemma attempts_failing attempt rest last_exc data reqs slept :
  (forall data, http attempt <> Body data) ->
  attempts http (attempt :: rest) last_exc data reqs slept
  = attempts http rest true data (reqs ++ [attempt])
             (if (attempt <? _RETRY_ATTEMPTS)%nat
              then slept ++ [(_RETRY_BACKOFF_BASE ^ (Z.of_nat attempt - 1))%Q]
              else slept).
Proof.
  intros H. cbn [attempts].
  destruct (http attempt) as [| | |body]; try (destruct (_ <? _)%nat; reflexivity).
  exfalso. eapply H. reflexivity.
Qed.

End Retry.
End CollectFacts.

Module CollectClaims.
Import PyStr Py Utils Collector StrFacts CollectFacts.

(** C8: when each of the three attempts fails (the request, the status
    check or the parsing raises), [crt_sh_collect] makes exactly the
    attempts 1, 2 and 3, sleeps 1.5^0 and then 1.5^1 seconds between them,
    and returns the empty list rather than raising. *)
Theorem crt_sh_collect_gives_up (domain : str) (http : nat -> fetch) :
  (forall attempt, (1 <= attempt <= 3)%nat -> forall data, http attempt <> Body data) ->
  let r := crt_sh_collect domain http in
  ret r = Returned []
  /\ requests r = [1; 2; 3]%nat
  /\ sleeps r = [(_RETRY_BACKOFF_BASE ^ 0)%Q; (_RETRY_BACKOFF_BASE ^ 1)%Q].
Proof.
  intros H. cbv zeta. unfold crt_sh_collect.
  change (seq 1 _RETRY_ATTEMPTS) with [1; 2; 3]%nat.
  rewrite !attempts_failing by (intros data; apply H; lia).
  cbn. auto.
Qed.

Lemma crt_sh_collect_gives_up_example :
  let r := crt_sh_collect "example.com"
             (fun attempt => match attempt with
                             | 1%nat => NetworkError
                             | 2%nat => BadStatus
                             | _ => Unparsable
                             end) in
  ret r = Returned [] /\ requests r = [1; 2; 3]%nat /\ sleeps r = [1%Q; (3 # 2)%Q].
Proof.
  apply (crt_sh_collect_gives_up "example.com").
  intros attempt Hle data.
  destruct attempt as [|[|[|[|n]]]]; try discriminate; lia.
Defined.

(** C6, amended: for the domain example.com and the response
    [[{"name_value": "*.example.com\nwww.example.com"}]] on the first
    attempt, [crt_sh_collect] returns the two hosts example.com and
    www.example.com, in this order, after one request and no sleep: the
    wildcard line loses its marker and the bare domain ends with the
    domain. *)
Theorem crt_sh_collect_scenario (http : nat -> fetch) :
  http 1%nat = Body scenario_body ->
  let r := crt_sh_collect "example.com" http in
  ret r = Returned ["example.com" : str; "www.example.com" : str]
  /\ requests r = [1%nat] /\ sleeps r = [].
Proof.
  intros H. cbv zeta. unfold crt_sh_collect.
  change (seq 1 _RETRY_ATTEMPTS) with [1; 2; 3]%nat.
  cbn [attempts]. rewrite H. unfold scenario_body.
  vm_compute. auto.
Qed.

Lemma crt_sh_collect_scenario_first_try :
  let r := crt_sh_collect "example.com" (fun _ => Body scenario_body) in
  ret r = Returned ["example.com" : str; "www.example.com" : str]
  /\ requests r = [1%nat] /\ sleeps r = [].
Proof. apply (crt_sh_collect_scenario (fun _ => Body scenario_body)). reflexivity. Defined.

(** C6 as stated fails: the domain itself is collected too. *)
Lemma crt_sh_collect_keeps_apex :
  let r := ret (crt_sh_collect "example.com" (fun _ => Body scenario_body)) in
  r <> Returned ["www.example.com" : str]
  /\ forall hosts, r = Returned hosts ->
       (list_to_set hosts : gset str) <> {[ "www.example.com" : str ]}
       /\ In ("example.com" : str) hosts.
Proof.
  cbv zeta.
  assert (E : ret (crt_sh_collect "example.com" (fun _ => Body scenario_body))
              = Returned ["example.com" : str; "www.example.com" : str])
    by (vm_compute; reflexivity).
  rewrite E. split; [discriminate|].
  intros hosts H. inversion H; subst. split; [|left; reflexivity].
  intros Hset.
  assert (Hin : ("example.com" : str) ∈ ({[ "www.example.com" : str ]} : gset str)).
  { rewrite <- Hset. set_solver. }
  apply elem_of_singleton in Hin. discriminate.
Qed.

(** C10: a line with no [@], once trimmed, splits into a run of [*] and
    [.] characters, a body that starts with neither, ends in no dot, and a
    run of dots; the candidate that is tested against the domain and the
    character class, and normalized when it passes, is the body in lower
    case. *)
Theorem host_of_line_strips_markers (domain line : str) :
  truthy (strip line) = true -> contains_char "@" (strip line) = false ->
  exists stars body dots,
    strip line = stars ++ body ++ dots
    /\ forallb (one_of "*.") stars = true
    /\ forallb (one_of ".") dots = true
    /\ first_is (one_of "*.") body = false
    /\ last_is (one_of ".") body = false
    /\ host_of_line domain line
       = if endswith (lower body) domain && is_likely_subdomain (lower body)
         then Some (normalize (lower body)) else None.
Proof.
  intros Ht Hat.
  destruct (markers_stripped (strip line)) as (stars & dots & H1 & H2 & H3 & H4 & H5).
  exists stars, (rstrip "." (lstrip "*." (strip line))), dots.
  repeat (split; [assumption|]).
  unfold host_of_line. rewrite Ht, Hat. reflexivity.
Qed.

Lemma host_of_line_doubled_marker :
  exists stars body dots,
    strip "*.*.sub.example.com" = stars ++ body ++ dots
    /\ forallb (one_of "*.") stars = true
    /\ forallb (one_of ".") dots = true
    /\ first_is (one_of "*.") body = false
    /\ last_is (one_of ".") body = false
    /\ host_of_line "example.com" "*.*.sub.example.com"
       = if endswith (lower body) "example.com" && is_likely_subdomain (lower body)
         then Some (normalize (lower body)) else None.
Proof.
  apply (host_of_line_strips_markers "example.com" "*.*.sub.example.com");
    reflexivity.
Defined.

Example doubled_marker_candidate :
  host_of_line "example.com" "*.*.sub.example.com." = Some ("sub.example.com" : str)
  /\ ret (crt_sh_collect "example.com" (fun _ => Body doubled_marker_body))
     = Returned ["sub.example.com" : str].
Proof. vm_compute. auto. Qed.

End CollectClaims.

(* ===================================================================== *)
(** * The wildcard filter of [main] *)
(* ===================================================================== *)
Module CliFacts.
Import PyStr Py Cli.

Lemma nonempty_true {X} (l : list X) : nonempty l = true <-> l <> [].
Proof. destruct l; simpl; split; congruence. Qed.

Lemma subset_of_list (ips : list str) (s : gset str) :
  (list_to_set ips : gset str) ⊆ s <-> forall ip, In ip ips -> ip ∈ s.
Proof.
  split.
  - intros H ip Hip. apply H, elem_of_list_to_set, list_elem_of_In, Hip.
  - intros H ip Hip. apply elem_of_list_to_set, list_elem_of_In in Hip. auto.
Qed.

Lemma wildcard_only_spec has_wildcard wildcard_ips ips :
  ips <> [] ->
  wildcard_only has_wildcard wildcard_ips ips = true
  <-> has_wildcard = true /\ forall ip, In ip ips -> ip ∈ wildcard_ips.
Proof.
  intros Hne. unfold wildcard_only.
  rewrite !andb_true_iff, negb_true_iff, bool_decide_eq_false, bool_decide_eq_true.
  rewrite subset_of_list. split; [tauto|].
  intros [Hh Hsub]. repeat split; auto.
  intros ->. destruct ips as [|ip r]; [congruence|].
  apply (not_elem_of_empty (C := gset str) ip), Hsub. left. reflexivity.
Qed.

Lemma judge_dropped has_wildcard wildcard_ips ips :
  judge has_wildcard wildcard_ips ips = WildcardDropped
  <-> has_wildcard = true /\ ips <> []
      /\ forall ip, In ip ips -> ip ∈ wildcard_ips.
Proof.
  unfold judge. destruct (nonempty ips) eqn:E.
  - apply nonempty_true in E.
    destruct (wildcard_only _ _ _) eqn:W.
    + apply wildcard_only_spec in W; [|exact E]. tauto.
    + split; [discriminate|]. intros (Hh & _ & Hs).
      assert (wildcard_only has_wildcard wildcard_ips ips = true)
        by (apply wildcard_only_spec; auto).
      congruence.
  - split; [discriminate|]. intros (_ & Hne & _).
    apply nonempty_true in Hne. congruence.
Qed.

Lemma judge_kept has_wildcard wildcard_ips ips :
  judge has_wildcard wildcard_ips ips = Kept
  <-> ips <> []
      /\ ~ (has_wildcard = true /\ forall ip, In ip ips -> ip ∈ wildcard_ips).
Proof.
  unfold judge. destruct (nonempty ips) eqn:E.
  - apply nonempty_true in E.
    destruct (wildcard_only _ _ _) eqn:W.
    + apply wildcard_only_spec in W; [|exact E]. split; [discriminate|tauto].
    + split; [|reflexivity]. intros _. split; [exact E|].
      intros H. apply wildcard_only_spec in H; [|exact E]. congruence.
  - split; [discriminate|]. intros [Hne _]. apply nonempty_true in Hne. congruence.
Qed.

Lemma filter_results_In has_wildcard wildcard_ips items n ips :
  In (Found n ips) (filter_results has_wildcard wildcard_ips items)
  <-> In (n, ips) items /\ judge has_wildcard wildcard_ips ips = Kept.
Proof.
  induction items as [|[n' ips'] r IH]; simpl; [tauto|].
  destruct (judge has_wildcard wildcard_ips ips') eqn:J; simpl; rewrite IH.
  - split.
    + intros [E | [H1 H2]]; [inversion E; subst; auto|auto].
    + intros [[E | H1] H2]; [inversion E; subst; auto|auto].
  - split; [tauto|]. intros [[E | H1] H2]; [inversion E; subst; congruence|auto].
  - split; [tauto|]. intros [[E | H1] H2]; [inversion E; subst; congruence|auto].
Qed.

End CliFacts.

Module CliClaims.
Import PyStr Py Cli CliFacts.

(** C5: an entry of the resolved map is dropped as a wildcard hit exactly
    when [has_wildcard] holds, its address list is not empty and every
    address is in [wildcard_ips]; and the results are the entries with a
    list that is not empty and that are not dropped in this way. *)
Theorem wildcard_filter
        (has_wildcard : bool) (wildcard_ips : gset str)
        (items : PyDict.dict (list str)) :
  (forall ips,
      judge has_wildcard wildcard_ips ips = WildcardDropped
      <-> has_wildcard = true /\ ips <> []
          /\ forall ip, In ip ips -> ip ∈ wildcard_ips)
  /\ (forall n ips,
        In (Found n ips) (filter_results has_wildcard wildcard_ips items)
        <-> In (n, ips) items /\ ips <> []
            /\ ~ (has_wildcard = true /\ forall ip, In ip ips -> ip ∈ wildcard_ips)).
Proof.
  split.
  - intros ips. apply judge_dropped.
  - intros n ips. rewrite filter_results_In, judge_kept. reflexivity.
Qed.

Example wildcard_filter_scenario :
  let wildcard_ips : gset str := {[ "1.2.3.4" : str ]} in
  judge true wildcard_ips ["1.2.3.4" : str] = WildcardDropped
  /\ judge true wildcard_ips ["1.2.3.4" : str; "5.6.7.8" : str] = Kept
  /\ filter_results true wildcard_ips
       [("a.example.com" : str, ["1.2.3.4" : str]);
        ("b.example.com" : str, ["1.2.3.4" : str; "5.6.7.8" : str]);
        ("c.example.com" : str, [])]
     = [Found "b.example.com" ["1.2.3.4" : str; "5.6.7.8" : str]].
Proof. vm_compute. auto. Qed.

Lemma wildcard_filter_dropped_example :
  judge true {[ "1.2.3.4" : str ]} ["1.2.3.4" : str] = WildcardDropped.
Proof.
  apply (proj1 (wildcard_filter true {[ "1.2.3.4" : str ]} [])).
  split; [reflexivity|]. split; [discriminate|].
  intros ip [<- | []]. apply elem_of_singleton. reflexivity.
Defined.

End CliClaims.
